(** * ipfx.chirp: chirp-sweep impedance features

    A shallow embedding of [ipfx/chirp.py].  Samples are IEEE-754 binary64
    values (the kernel's primitive [float], which is what a numpy [float64]
    is); numpy arrays are lists; Python exceptions are values of [exn] carried
    by the [result] monad; the numeric kernels of numpy and scipy whose
    rounding is not fixed by this repository (FFT, complex arithmetic,
    Savitzky-Golay filtering, [np.mean] of a feature column) are the fields
    of the class [NumLib]; the theorems hold for every instance and name the
    part of the kernels' contract that they use. *)

From Stdlib Require Uint63.
From Stdlib Require Import Floats ZArith String List Bool Lia Arith.
Import ListNotations.

(** ** Python exceptions and the [result] monad *)

(** The exception classes that the module, numpy and the interpreter raise on
    the paths modelled here.  [KeyboardInterrupt] stands for the classes that
    derive from [BaseException] only, which [except Exception] lets through
    and a bare [except:] catches. *)
Inductive exn : Type :=
| FeatureError (msg : string)
| ValueError
| IndexError
| ZeroDivisionError
| OverflowError
| KeyError
| KeyboardInterrupt.

(** [isinstance(e, FeatureError)] *)
Definition is_FeatureError (e : exn) : bool :=
  match e with FeatureError _ => true | _ => false end.

(** [isinstance(e, Exception)] *)
Definition is_Exception (e : exn) : bool :=
  match e with KeyboardInterrupt => false | _ => true end.

Inductive result (A : Type) : Type :=
| Ok (a : A)
| Raise (e : exn).
Arguments Ok {A} a.
Arguments Raise {A} e.

Definition bind {A B} (m : result A) (k : A -> result B) : result B :=
  match m with
  | Ok a => k a
  | Raise e => Raise e
  end.

Declare Scope result_scope.
Delimit Scope result_scope with result.
Notation "x <- m ;; k" := (bind m (fun x => k))
  (at level 61, m at next level, right associativity) : result_scope.
Notation "' p <- m ;; k" := (bind m (fun x => match x with p => k end))
  (at level 61, p pattern, m at next level, right associativity) : result_scope.
Local Open Scope result_scope.

Definition raises {A} (m : result A) : Prop := exists e, m = Raise e.
Definition returns {A} (m : result A) : Prop := exists a, m = Ok a.

(** ** float64 scalars *)

Module F64.

Local Open Scope float_scope.

(** Exact integer -> float64 conversion (exact below 2^53). *)
Definition of_Z (n : Z) : float :=
  if (n <? 0)%Z then - (of_uint63 (Uint63.of_Z (- n)))
  else of_uint63 (Uint63.of_Z n).

Definition of_nat (n : nat) : float := of_Z (Z.of_nat n).

(** Python's [int(x)] on a float: truncation toward zero; [int(nan)] is a
    [ValueError] and [int(inf)] an [OverflowError]. *)
Definition py_int (x : float) : result Z :=
  match Prim2SF x with
  | S754_zero _ => Ok 0%Z
  | S754_finite s m e =>
      let q := if (0 <=? e)%Z then Z.shiftl (Zpos m) e
               else Z.shiftr (Zpos m) (- e) in
      Ok (if s then (- q)%Z else q)
  | S754_nan => Raise ValueError
  | S754_infinity _ => Raise OverflowError
  end.

(** [np.rint]: round to the nearest integer, halves to even. *)
Definition rint (x : float) : float :=
  match Prim2SF x with
  | S754_finite s m e =>
      if (0 <=? e)%Z then x
      else
        let q := Z.shiftr (Zpos m) (- e) in
        let r := (Zpos m - Z.shiftl q (- e))%Z in
        let up :=
          match Z.compare (2 * r) (Z.shiftl 1 (- e)) with
          | Lt => false
          | Gt => true
          | Eq => Z.odd q
          end in
        let n := of_Z (if up then q + 1 else q)%Z in
        if s then - n else n
  | _ => x
  end.

(** [x == 0] on float64: true of both zeros, false of NaN. *)
Definition eq0 (x : float) : bool := x =? 0.

End F64.

(** ** numpy array helpers *)

(** [np.all(a == 0)] *)
Definition np_all_zero (a : list float) : bool := forallb F64.eq0 a.

(** [a[-n:]] for a positive [n]: the last [n] items, or all of [a] when it
    has fewer. *)
Definition last_n {A} (n : nat) (a : list A) : list A :=
  skipn (length a - n) a.

(** [a[lo:hi]] for non-negative indices. *)
Definition slice {A} (lo hi : nat) (a : list A) : list A :=
  firstn (hi - lo) (skipn lo a).

(** [a[::w]] for a positive stride [w]: [k] counts the items still to skip
    before the next one is kept. *)
Fixpoint stride_from {A} (w k : nat) (a : list A) : list A :=
  match a with
  | [] => []
  | x :: r =>
      match k with
      | O => x :: stride_from w (w - 1) r
      | S k' => stride_from w k' r
      end
  end.

Definition stride {A} (w : nat) (a : list A) : list A := stride_from w 0 a.

(** [np.pad(a, (pad, 0), 'constant', constant_values=np.nan)] *)
Definition np_pad_left_nan (pad : nat) (a : list float) : list float :=
  repeat nan pad ++ a.

(** [np.argmax] on a float64 array: the first NaN if there is one, else the
    first maximum; an empty array is a [ValueError].  [mp] and [mi] are the
    running maximum and its index, [k] the index of the head of [a]. *)
Fixpoint argmax_from (a : list float) (k : nat) (mp : float) (mi : nat) : nat :=
  match a with
  | [] => mi
  | x :: r =>
      if negb (x <=? mp)%float
      then if is_nan x then k else argmax_from r (S k) x k
      else argmax_from r (S k) mp mi
  end.

Definition np_argmax (a : list float) : result nat :=
  match a with
  | [] => Raise ValueError
  | x :: r => Ok (if is_nan x then O else argmax_from r 1 x 0)
  end.

(** [np.argmin], the mirror image. *)
Fixpoint argmin_from (a : list float) (k : nat) (mp : float) (mi : nat) : nat :=
  match a with
  | [] => mi
  | x :: r =>
      if negb (mp <=? x)%float
      then if is_nan x then k else argmin_from r (S k) x k
      else argmin_from r (S k) mp mi
  end.

Definition np_argmin (a : list float) : result nat :=
  match a with
  | [] => Raise ValueError
  | x :: r => Ok (if is_nan x then O else argmin_from r 1 x 0)
  end.

(** [a[k]] for a non-negative [k]; out of range is an [IndexError]. *)
Definition getitem {A} (a : list A) (k : nat) : result A :=
  match nth_error a k with
  | Some x => Ok x
  | None => Raise IndexError
  end.

(** [a[-1]] *)
Definition getlast {A} (a : list A) : result A :=
  match a with
  | [] => Raise IndexError
  | _ => getitem a (length a - 1)
  end.

(** [np.linspace(start, stop, num)] with the default [endpoint=True]. *)
Definition np_linspace (start stop : float) (num : nat) : list float :=
  let y := map F64.of_nat (seq 0 num) in
  let div := (num - 1)%nat in
  let delta := (stop - start)%float in
  let y :=
    if (0 <? div)%nat then
      let step := (delta / F64.of_nat div)%float in
      if (step =? 0)%float
      then map (fun k => (k / F64.of_nat div * delta)%float) y
      else map (fun k => (k * step)%float) y
    else map (fun k => (k * delta)%float) y in
  let y := map (fun x => (x + start)%float) y in
  if (1 <? num)%nat then firstn (num - 1) y ++ [stop] else y.

(** [a / b] on arrays, with numpy's broadcasting of a one-item operand;
    other length mismatches are a [ValueError]. *)
Definition np_broadcast {A B C} (f : A -> B -> C) (a : list A) (b : list B)
  : result (list C) :=
  if (length a =? length b)%nat then Ok (map (fun p => f (fst p) (snd p)) (combine a b))
  else
    match a, b with
    | [x], _ => Ok (map (f x) b)
    | _, [y] => Ok (map (fun x => f x y) a)
    | _, _ => Raise ValueError
    end.

(** [np.vstack(rows).mean(axis=0)]: the rows must be as long as the first
    one and there must be one at least, else [np.vstack] raises a
    [ValueError]; the rows are accumulated in order and the sums divided by
    the number of rows. *)
Definition np_vstack_mean (rows : list (list float)) : result (list float) :=
  match rows with
  | [] => Raise ValueError
  | r0 :: rest =>
      if forallb (fun r => (length r =? length r0)%nat) rest then
        let add_row acc r := map (fun p => (fst p + snd p)%float) (combine acc r) in
        let total := fold_left add_row rest r0 in
        Ok (map (fun x => (x / F64.of_nat (length rows))%float) total)
      else Raise ValueError
  end.

(** ** Sweeps *)

Module Sweep.

(** A sweep: its number, the time, voltage and current traces, and the
    stimulus epoch as a pair of sample indices, both included. *)
Record Sweep : Type := mk {
  sweep_number : Z;
  t : list float;
  v : list float;
  i : list float;
  stim : nat * nat
}.

(** Modelled from the spec: [Sweep.select_epoch("stim")] of ipfx/sweep.py,
    which is not part of the sources; the sweep is restricted to the samples
    of its stimulus epoch.  (The selection stays on the Python object after
    the call; nothing below reads a sweep again after selecting.) *)
Definition select_epoch_stim (s : Sweep) : Sweep :=
  let '(a, b) := stim s in
  mk (sweep_number s) (slice a (S b) (t s)) (slice a (S b) (v s))
     (slice a (S b) (i s)) (0%nat, (b - a)%nat).

(** The data model's invariant: the three traces have one length. *)
Definition wf (s : Sweep) : Prop :=
  length (v s) = length (t s) /\ length (i s) = length (t s).

End Sweep.

Abbreviation Sweep := Sweep.Sweep.

Record SweepSet : Type := { sweeps : list Sweep }.

(** ** Resampler and Time-Index Locator *)

(** The mean of the items of a block that are not NaN ([np.nanmean]). *)
Definition nanmean (block : list float) : float :=
  let kept := filter (fun x => negb (is_nan x)) block in
  (fold_left PrimFloat.add kept 0 / F64.of_nat (length kept))%float.

(** Blocks of [w] items are cut from [a] in order, [cur] holding the items of
    the block being filled; a trailing partial block is dropped. *)
Fixpoint subsample_blocks (w : nat) (cur : list float) (a : list float)
  : list float :=
  match a with
  | [] => []
  | x :: r =>
      let cur' := cur ++ [x] in
      if (length cur' =? w)%nat then nanmean cur' :: subsample_blocks w [] r
      else subsample_blocks w cur' r
  end.

(** Modelled from the spec: [feature_vectors._subsample_average], which is
    not part of the sources.  Consecutive blocks of [width] samples are
    replaced by their means, NaN positions ignored; the output has
    floor(len / width) items.  The contract asks for a width of 1 at least:
    any other width is a [ValueError]. *)
Definition _subsample_average (x : list float) (width : Z) : result (list float) :=
  if (width <? 1)%Z then Raise ValueError
  else Ok (subsample_blocks (Z.to_nat width) [] x).

(** Modelled from the spec: [time_series_utils.find_time_index], which is not
    part of the sources.  The index of the entry closest to the target, the
    lower index on ties; a target outside the range gives the nearest end.
    An empty array has no index to give: a [ValueError], as [np.argmin]
    raises. *)
Definition find_time_index (t : list float) (t_0 : float) : result nat :=
  np_argmin (map (fun x => abs (x - t_0)%float) t).

(** ** The numpy and scipy kernels *)

Record complex : Type := Cx { re : float; im : float }.

(** The numeric kernels whose results the module passes on without fixing
    how they round. *)
Class NumLib : Type := {
  (** [scipy.fftpack.fft] on a non-empty real array *)
  fft : list float -> list complex;
  (** complex [/] *)
  c_div : complex -> complex -> complex;
  (** [np.abs] on a complex number *)
  c_abs : complex -> float;
  (** [np.angle] *)
  c_angle : complex -> float;
  (** [np.arctan] *)
  f_arctan : float -> float;
  (** [scipy.signal.savgol_filter(x, window_length, polyorder)]; [None] when
      scipy refuses the arguments *)
  savgol : list float -> Z -> Z -> option (list float);
  (** [np.mean] of a list of floats *)
  np_mean : list float -> float
}.

Section Chirp.

Context {L : NumLib}.

(** [savgol_filter(x, window_length, polyorder)]: scipy refuses a window
    longer than [x], an even one and an order that is not below the window
    with a [ValueError]. *)
Definition savgol_filter (x : list float) (window_length polyorder : Z)
  : result (list float) :=
  match savgol x window_length polyorder with
  | Some y => Ok y
  | None => Raise ValueError
  end.

(** [fftpack.fft(x)]: an empty input is a [ValueError]. *)
Definition fftpack_fft (x : list float) : result (list complex) :=
  match x with
  | [] => Raise ValueError
  | _ => Ok (fft x)
  end.

(** *** transform_sweep *)

(** [int(N / n_sample)] and [int(N / width)]-style quotients of Python
    integers: a zero divisor is a [ZeroDivisionError]; the float quotient
    truncated by [int] is the integer quotient truncated toward zero (exact
    while the operands are below 2^53). *)
Definition int_truediv (a b : Z) : result Z :=
  if (b =? 0)%Z then Raise ZeroDivisionError else Ok (Z.quot a b).

(** [np.ceil(a / b)] for Python integers, as an integer. *)
Definition ceil_truediv (a b : Z) : result Z :=
  if (b =? 0)%Z then Raise ZeroDivisionError else Ok (- ((- a) / b))%Z.

(** [np.pad(a, (pad, 0), 'constant', constant_values=np.nan)]: a negative
    pad width is a [ValueError]. *)
Definition np_pad (a : list float) (pad : Z) : result (list float) :=
  if (pad <? 0)%Z then Raise ValueError
  else Ok (np_pad_left_nan (Z.to_nat pad) a).

(** [low_ind], [high_ind] and the three band slices, the last four lines of
    both transforms. *)
Definition band_slice {A B} (a : list A) (b : list B) (xf : list float)
    (min_freq max_freq : float)
  : result (list A * list B * list float) :=
  low_ind <- find_time_index xf min_freq ;;
  high_ind <- find_time_index xf max_freq ;;
  Ok (slice low_ind high_ind a, slice low_ind high_ind b,
      slice low_ind high_ind xf).

(** The body of [transform_sweep] below the truncation check, on the traces
    of the selected epoch. *)
Definition transform_traces (v i t : list float)
    (n_sample : Z) (min_freq max_freq : float)
  : result (list complex * list complex * list float) :=
  let N := Z.of_nat (length v) in
  width <- int_truediv N n_sample ;;
  c <- ceil_truediv N width ;;
  let pad := (width * c - N)%Z in
  pv <- np_pad v pad ;;
  v <- _subsample_average pv width ;;
  pi <- np_pad i pad ;;
  i <- _subsample_average pi width ;;
  let t := stride (Z.to_nat width) t in
  let N := length v in
  t1 <- getitem t 1 ;;
  t0 <- getitem t 0 ;;
  let dt := (t1 - t0)%float in
  let xf := np_linspace 0 (1 / (2 * dt))%float (N / 2) in
  v_fft <- fftpack_fft v ;;
  i_fft <- fftpack_fft i ;;
  band_slice v_fft i_fft xf min_freq max_freq.

Definition transform_sweep (sweep : Sweep)
    (n_sample : Z) (min_freq max_freq : float)
  : result (list complex * list complex * list float) :=
  let sweep := Sweep.select_epoch_stim sweep in
  if np_all_zero (last_n 10 (Sweep.v sweep))
  then Raise (FeatureError "Chirp stim epoch truncated.")
  else transform_traces (Sweep.v sweep) (Sweep.i sweep) (Sweep.t sweep)
         n_sample min_freq max_freq.

(** [method_params], the keyword arguments handed to [transform_sweep]. *)
Record MethodParams : Type := {
  n_sample : Z;
  min_freq : float;
  max_freq : float
}.

(** [method_params={}]: the defaults of [transform_sweep]. *)
Definition default_params : MethodParams :=
  {| n_sample := 10000; min_freq := 1; max_freq := 35 |}.

(** *** chirp_sweep_amp_phase *)

Definition chirp_sweep_amp_phase (sweep : Sweep) (method_params : MethodParams)
  : result (list float * list float * list float) :=
  '(v, i, freq) <- transform_sweep sweep (n_sample method_params)
                     (min_freq method_params) (max_freq method_params) ;;
  Z <- np_broadcast c_div v i ;;
  let amp := map c_abs Z in
  let phase := map c_angle Z in
  f1 <- getitem freq 1 ;;
  f0 <- getitem freq 0 ;;
  k <- F64.py_int (F64.rint (1 / (f1 - f0))%float) ;;
  let n_filt := (k * 2 + 1)%Z in
  amp <- savgol_filter amp n_filt 5 ;;
  phase <- savgol_filter phase n_filt 5 ;;
  Ok (amp, phase, freq).

(** *** chirp_sweep_features *)

(** A feature set: a Python [dict] from feature names to floats, kept as the
    list of its items in insertion order. *)
Definition Features : Type := list (string * float).

(** [d[key]]; a missing key is a [KeyError]. *)
Fixpoint lookup (key : string) (d : Features) : result float :=
  match d with
  | [] => Raise KeyError
  | (k, x) :: r => if String.eqb k key then Ok x else lookup key r
  end.

Definition feature_names : list string :=
  ["peak_ratio"; "peak_freq"; "3db_freq"; "z_low"; "z_high"; "z_peak";
   "phase_peak"; "phase_low"; "phase_high"]%string.

(** The body of [chirp_sweep_features] below its first line, on the smoothed
    amplitude, phase and frequency arrays. *)
Definition sweep_features_of (amp phase freq : list float) : result Features :=
  i_max <- np_argmax amp ;;
  z_max <- getitem amp i_max ;;
  i_cutoff <- np_argmin (map (fun a => abs (a - z_max / sqrt 2)%float) amp) ;;
  a_max <- getitem amp i_max ;;
  a_0 <- getitem amp 0 ;;
  f_max <- getitem freq i_max ;;
  f_cutoff <- getitem freq i_cutoff ;;
  a_low <- getitem amp 0 ;;
  a_high <- getlast amp ;;
  p_max <- getitem phase i_max ;;
  p_low <- getitem phase 0 ;;
  p_high <- getlast phase ;;
  Ok [("peak_ratio", (a_max / a_0)%float);
      ("peak_freq", f_max);
      ("3db_freq", f_cutoff);
      ("z_low", a_low);
      ("z_high", a_high);
      ("z_peak", z_max);
      ("phase_peak", p_max);
      ("phase_low", p_low);
      ("phase_high", p_high)]%string.

Definition chirp_sweep_features (sweep : Sweep) (method_params : MethodParams)
  : result Features :=
  '(amp, phase, freq) <- chirp_sweep_amp_phase sweep method_params ;;
  sweep_features_of amp phase freq.

(** *** extract_chirp_features *)

Inductive level : Type := DEBUG | WARNING.

(** What the aggregator hands to [logging], in place of the formatted
    message. *)
Inductive event : Type :=
| LoadFailed (specimen_id : Z) (exc_info : exn)
| SweepFeatureError (exc : exn)
| SweepFailed (sweep_number specimen_id : Z) (exc_info : exn)
| NoResults (specimen_id : Z).

Definition log : Type := list (level * event).

(** The [for sweep in sweepset.sweeps] loop: the feature sets gathered so far
    and the log are threaded through; an exception that neither handler
    catches leaves the loop. *)
Fixpoint sweep_loop (specimen_id : Z) (method_params : MethodParams)
    (todo : list Sweep) (results : list Features) (lg : log)
  : result (list Features) * log :=
  match todo with
  | [] => (Ok results, lg)
  | sweep :: rest =>
      match chirp_sweep_features sweep method_params with
      | Ok r => sweep_loop specimen_id method_params rest (results ++ [r]) lg
      | Raise exc =>
          if is_FeatureError exc then
            sweep_loop specimen_id method_params rest results
              (lg ++ [(DEBUG, SweepFeatureError exc)])
          else if is_Exception exc then
            sweep_loop specimen_id method_params rest results
              (lg ++ [(WARNING,
                       SweepFailed (Sweep.sweep_number sweep) specimen_id exc)])
          else (Raise exc, lg)
      end
  end.

(** [[res[key] for res in results]] *)
Fixpoint column (key : string) (results : list Features) : result (list float) :=
  match results with
  | [] => Ok []
  | res :: rest =>
      x <- lookup key res ;;
      xs <- column key rest ;;
      Ok (x :: xs)
  end.

(** [{key: np.mean([res[key] for res in results]) for key in keys}] *)
Fixpoint mean_over (keys : list string) (results : list Features)
  : result Features :=
  match keys with
  | [] => Ok []
  | key :: rest =>
      xs <- column key results ;;
      d <- mean_over rest results ;;
      Ok ((key, np_mean xs) :: d)
  end.

(** [data_source] stands for the loading calls of the [try] block
    ([ontology_with_chirps], [dataset_for_specimen_id],
    [sweepset_by_type_qc]): the chirp sweep set of a specimen, or the
    exception that loading raised.  The specimen identifier is an integer, as
    the [{:d}] of the log messages asks. *)
Definition extract_chirp_features (specimen_id : Z)
    (data_source : Z -> result SweepSet) (method_params : MethodParams)
  : result Features * log :=
  match data_source specimen_id with
  | Raise exc => (Ok [], [(WARNING, LoadFailed specimen_id exc)])
  | Ok sweepset =>
      match sweep_loop specimen_id method_params (sweeps sweepset) [] [] with
      | (Raise exc, lg) => (Raise exc, lg)
      | (Ok [], lg) => (Ok [], lg ++ [(DEBUG, NoResults specimen_id)])
      | (Ok (res0 :: rest), lg) =>
          (mean_over (map fst res0) (res0 :: rest), lg)
      end
  end.

(** *** chirp_amp_phase *)

(** The first loop of [chirp_amp_phase]: [v_list] and [i_list]. *)
Fixpoint stack_sweeps (todo : list Sweep) (v_list i_list : list (list float))
  : list (list float) * list (list float) :=
  match todo with
  | [] => (v_list, i_list)
  | swp :: rest =>
      if np_all_zero (last_n 100 (Sweep.v swp))
      then stack_sweeps rest v_list i_list
      else stack_sweeps rest (v_list ++ [Sweep.v swp]) (i_list ++ [Sweep.i swp])
  end.

(** The downsampling step of [chirp_amp_phase]: [(ds_v, ds_i, ds_t)]. *)
Definition downsample (avg_v avg_i t : list float) (down_rate : float)
  : result (list float * list float * list float) :=
  t1 <- getitem t 1 ;;
  t0 <- getitem t 0 ;;
  let current_rate := F64.rint (1 / (t1 - t0))%float in
  if (down_rate <? current_rate)%float then
    width <- F64.py_int (current_rate / down_rate)%float ;;
    ds_v <- _subsample_average avg_v width ;;
    ds_i <- _subsample_average avg_i width ;;
    Ok (ds_v, ds_i, stride (Z.to_nat width) t)
  else Ok (avg_v, avg_i, t).

Definition chirp_amp_phase (sweep_set : SweepSet)
    (start end_ down_rate min_freq max_freq : float)
  : result (list float * list float * list float) :=
  let '(v_list, i_list) := stack_sweeps (sweeps sweep_set) [] [] in
  avg_v <- np_vstack_mean v_list ;;
  avg_i <- np_vstack_mean i_list ;;
  swp0 <- getitem (sweeps sweep_set) 0 ;;
  let t := Sweep.t swp0 in
  '(ds_v, ds_i, ds_t) <- downsample avg_v avg_i t down_rate ;;
  start_index <- find_time_index ds_t start ;;
  end_index <- find_time_index ds_t end_ ;;
  let N := length (slice start_index end_index ds_v) in
  t1 <- getitem ds_t 1 ;;
  t0 <- getitem ds_t 0 ;;
  let T := (t1 - t0)%float in
  let xf := np_linspace 0 (1 / (2 * T))%float (N / 2) in
  v_fft <- fftpack_fft (slice start_index end_index ds_v) ;;
  i_fft <- fftpack_fft (slice start_index end_index ds_i) ;;
  Z <- np_broadcast c_div v_fft i_fft ;;
  let R := map re Z in
  let X := map im Z in
  let resistance := firstn (N / 2) (map c_abs Z) in
  q <- np_broadcast PrimFloat.div X R ;;
  let reactance := firstn (N / 2) (map f_arctan q) in
  band_slice resistance reactance xf min_freq max_freq.

End Chirp.

(** ** The two transforms from their resampled traces on *)

Section Continuations.

Context {L : NumLib}.

(** [transform_sweep] from the resampled traces on (its lines 178 to 188):
    [v], [i] and [t] are the block means and the strided time base. *)
Definition spectra_of_resampled (v i t : list float) (min_freq max_freq : float)
  : result (list complex * list complex * list float) :=
  let N := length v in
  t1 <- getitem t 1 ;;
  t0 <- getitem t 0 ;;
  let dt := (t1 - t0)%float in
  let xf := np_linspace 0 (1 / (2 * dt))%float (N / 2) in
  v_fft <- fftpack_fft v ;;
  i_fft <- fftpack_fft i ;;
  band_slice v_fft i_fft xf min_freq max_freq.

(** [chirp_amp_phase] from the averaged traces on (its lines 127 to 157):
    [t] is the time base of the first sweep of the set. *)
Definition amp_phase_of_average (avg_v avg_i t : list float)
    (start end_ down_rate min_freq max_freq : float)
  : result (list float * list float * list float) :=
  '(ds_v, ds_i, ds_t) <- downsample avg_v avg_i t down_rate ;;
  start_index <- find_time_index ds_t start ;;
  end_index <- find_time_index ds_t end_ ;;
  let N := length (slice start_index end_index ds_v) in
  t1 <- getitem ds_t 1 ;;
  t0 <- getitem ds_t 0 ;;
  let T := (t1 - t0)%float in
  let xf := np_linspace 0 (1 / (2 * T))%float (N / 2) in
  v_fft <- fftpack_fft (slice start_index end_index ds_v) ;;
  i_fft <- fftpack_fft (slice start_index end_index ds_i) ;;
  Z <- np_broadcast c_div v_fft i_fft ;;
  let R := map re Z in
  let X := map im Z in
  let resistance := firstn (N / 2) (map c_abs Z) in
  q <- np_broadcast PrimFloat.div X R ;;
  let reactance := firstn (N / 2) (map f_arctan q) in
  band_slice resistance reactance xf min_freq max_freq.

End Continuations.

(** ** extract_chirp_feature_vector *)

(** The names that the import of [chirp.py] binds in the module, in the
    order of the file.  A name that a function reads without assigning it is
    looked up here (and then among the builtins, which have no [features]). *)
Definition module_globals : list string :=
  ["division"; "print_function"; "absolute_import"; "np"; "logging"; "pd";
   "fftpack"; "FeatureError"; "op"; "fv"; "tsu"; "CHIRP_CODES";
   "extract_chirp_features"; "chirp_sweep_amp_phase"; "chirp_sweep_features";
   "extract_chirp_feature_vector"; "chirp_amp_phase"; "transform_sweep";
   "json"; "ju"; "StimulusOntology"; "ontology_with_chirps"]%string.

(** How a call that reads a global name ends: with a value, with an
    exception of [exn], or with the [NameError] of a name that is not
    bound. *)
Inductive outcome (A : Type) : Type :=
| Returned (a : A)
| Raised (e : exn)
| NameError (name : string).
Arguments Returned {A} a.
Arguments Raised {A} e.
Arguments NameError {A} name.

(** The value of a global name: the object that the module binds to it,
    which its name stands for here. *)
Definition load_global (name : string) : outcome string :=
  if existsb (String.eqb name) module_globals then Returned name
  else NameError name.

Section FeatureVector.

Context {L : NumLib}.

(** [sweep_set] stands for the method [data_set.sweep_set];
    [chirp_amp_phase] is called with its default keyword arguments, 0.6,
    20.6, 2000, 0.2 and 40, the float64 values nearest to 0.6, 20.6 and 0.2
    written out; [np.hstack] of two one-dimensional arrays is their
    concatenation. *)
Definition extract_chirp_feature_vector
    (sweep_set : list Z -> result SweepSet) (chirp_sweep_numbers : list Z)
  : outcome string :=
  match sweep_set chirp_sweep_numbers with
  | Raise e => Raised e
  | Ok chirp_sweeps =>
      let result : list (string * list float) := [] in
      match chirp_amp_phase chirp_sweeps
              0x1.3333333333333p-1 0x1.499999999999ap+4 2000
              0x1.999999999999ap-3 40 with
      | Raise e => Raised e
      | Ok (amp, phase, freq) =>
          let result := ("chirp"%string, amp ++ phase) :: result in
          load_global "features"
      end
  end.

End FeatureVector.

(** ** ontology_with_chirps *)

(** A stimulus entry of the ontology file, which is a JSON array of such
    entries: the list of its tag sets, a tag set being the list of a kind of
    tag ("code", "name", "core", ...) and of the tags of that kind. *)
Definition tagset : Type := list string.
Definition stimulus : Type := list tagset.

Definition CHIRP_CODES : list string :=
  ["C2CHIRP180503"; "C2CHIRP171129"; "C2CHIRP171103"]%string.

(** [c in tagset] on a list of strings *)
Definition py_in (c : string) (tagset : list string) : bool :=
  existsb (String.eqb c) tagset.

(** [for c in chirp_stimulus_codes]: at the first code that the tag set
    holds together with "code", [mask_val] is set to [False] and the loop is
    left. *)
Fixpoint codes_loop (tagset : tagset) (chirp_stimulus_codes : list string)
    (mask_val : bool) : bool :=
  match chirp_stimulus_codes with
  | [] => mask_val
  | c :: rest =>
      if py_in c tagset && py_in "code" tagset then false
      else codes_loop tagset rest mask_val
  end.

(** [for tagset in od]: the [break] leaves the loop over the codes only, so
    the tag sets that follow are still visited. *)
Fixpoint tagsets_loop (od : stimulus) (chirp_stimulus_codes : list string)
    (mask_val : bool) : bool :=
  match od with
  | [] => mask_val
  | tagset :: rest =>
      tagsets_loop rest chirp_stimulus_codes
        (codes_loop tagset chirp_stimulus_codes mask_val)
  end.

(** [for od in ontology_data]: [mask], one flag for each entry. *)
Fixpoint mask_loop (ontology_data : list stimulus)
    (chirp_stimulus_codes : list string) (mask : list bool) : list bool :=
  match ontology_data with
  | [] => mask
  | od :: rest =>
      mask_loop rest chirp_stimulus_codes
        (mask ++ [tagsets_loop od chirp_stimulus_codes true])
  end.

(** The entry that is appended for the chirp sweeps. *)
Definition chirp_stimulus (chirp_stimulus_codes : list string) : stimulus :=
  [ "code" :: chirp_stimulus_codes; ["name"; "Chirp"]; ["core"; "Core 2"] ]%string.

(** [ontology_with_chirps]: [ontology_data] is what [ju.read] returns for the
    default ontology file; the result is the list that the function hands to
    the constructor of [StimulusOntology]. *)
Definition ontology_with_chirps (chirp_stimulus_codes : list string)
    (ontology_data : list stimulus) : list stimulus :=
  let mask := mask_loop ontology_data chirp_stimulus_codes [] in
  let ontology_data :=
    map fst (filter (fun p => snd p) (combine ontology_data mask)) in
  ontology_data ++ [chirp_stimulus chirp_stimulus_codes].

(** ** An instance of the kernels *)

(** Textbook kernels on which the model runs: they round differently from
    numpy and scipy and serve for the examples below only. *)
Module Demo.

Local Open Scope float_scope.

Definition pi : float := 0x1.921fb54442d18p+1.

(** [n] terms of the series that starts at [term] and goes on by the factor
    [- x2 / ((k + 1) (k + 2))], [k] going up by 2. *)
Fixpoint series (n : nat) (x2 term k acc : float) : float :=
  match n with
  | O => acc
  | S n' => series n' x2 (- term * x2 / ((k + 1) * (k + 2))) (k + 2) (acc + term)
  end.

Definition cos (x : float) : float := series 16 (x * x) 1 0 0.
Definition sin (x : float) : float := series 16 (x * x) x 1 0.

(** The twiddle factor of angle [- 2 pi m / n], the angle brought into
    [-pi, pi]. *)
Definition twiddle (n m : nat) : complex :=
  let m := (m mod n)%nat in
  let m' := if (n <? 2 * m)%nat then (Z.of_nat m - Z.of_nat n)%Z else Z.of_nat m in
  let theta := - (2 * pi * F64.of_Z m' / F64.of_nat n) in
  Cx (cos theta) (sin theta).

Definition c_add (a b : complex) : complex := Cx (re a + re b) (im a + im b).

Definition c_scale (x : float) (a : complex) : complex := Cx (x * re a) (x * im a).

(** The discrete Fourier transform by its definition. *)
Definition dft (x : list float) : list complex :=
  let n := length x in
  map (fun k =>
         fold_left c_add
           (map (fun p => c_scale (snd p) (twiddle n (fst p * k)))
                (combine (seq 0 n) x))
           (Cx 0 0))
      (seq 0 n).

Definition div (a b : complex) : complex :=
  let d := re b * re b + im b * im b in
  Cx ((re a * re b + im a * im b) / d) ((im a * re b - re a * im b) / d).

Definition abs (a : complex) : float := sqrt (re a * re a + im a * im a).

Fixpoint atan_series (n : nat) (x2 term k acc : float) : float :=
  match n with
  | O => acc
  | S n' => atan_series n' x2 (- term * x2) (k + 2) (acc + term / k)
  end.

Definition atan_small (x : float) : float :=
  let h x := x / (1 + sqrt (1 + x * x)) in
  let y := h (h x) in
  4 * atan_series 14 (y * y) y 1 0.

Definition arctan (x : float) : float :=
  if is_nan x then x
  else if PrimFloat.abs x <=? 1 then atan_small x
  else if 0 <? x then pi / 2 - atan_small (1 / x)
  else - (pi / 2) - atan_small (1 / x).

Definition angle (a : complex) : float :=
  let x := re a in
  let y := im a in
  if 0 <? x then arctan (y / x)
  else if x <? 0 then (if y <? 0 then arctan (y / x) - pi else arctan (y / x) + pi)
  else if 0 <? y then pi / 2
  else if y <? 0 then - (pi / 2)
  else y + x.

(** The sum of a list divided by the number of its items. *)
Definition mean (a : list float) : float :=
  fold_left PrimFloat.add a 0 / F64.of_nat (length a).

(** The mean over the window around each sample, cut at the ends of the
    array: the least-squares fit of degree 0 stands in for the fit of degree
    [polyorder].  The arguments are checked as scipy checks them. *)
Definition smooth (x : list float) (window_length polyorder : Z)
  : option (list float) :=
  if (window_length <=? polyorder)%Z || Z.even window_length
     || (Z.of_nat (length x) <? window_length)%Z
  then None
  else
    let h := Z.to_nat (window_length / 2) in
    Some (map (fun k => mean (slice (k - h) (k + h + 1) x)) (seq 0 (length x))).

Definition lib : NumLib := {|
  fft := dft;
  c_div := div;
  c_abs := abs;
  c_angle := angle;
  f_arctan := arctan;
  savgol := smooth;
  np_mean := mean
|}.

(** A sweep of [n] samples taken every eighth of a second, the whole of it
    the stimulus epoch; [tail] is appended to the voltage trace (and zeros to
    the current trace, the time going on). *)
Definition sweep (number : Z) (n : nat) (tail : list float) : Sweep :=
  let m := (n + length tail)%nat in
  Sweep.mk number
    (map (fun k => F64.of_nat k / 8) (seq 0 m))
    (map (fun k => F64.of_nat (k * k mod 7) + 1) (seq 0 n) ++ tail)
    (map (fun k => F64.of_nat (3 * k mod 5) + 1) (seq 0 n)
     ++ repeat 0 (length tail))
    (0%nat, (m - 1)%nat).

(** 34 samples: a frequency axis of 17 points from 0 to 4 Hz. *)
Definition sweep_34 : Sweep := sweep 1 34 [].

(** 24 samples and then 10 zeros: a truncated stimulus. *)
Definition sweep_cut : Sweep := sweep 2 24 (repeat 0 10).

(** 19 samples: with the window from 0 to 2.25 s the averager has an axis
    of 9 points from 0 to 4 Hz. *)
Definition sweep_19 : Sweep := sweep 3 19 [].

(** The band that the examples ask for: 0.5 Hz to 3.5 Hz, both on the two
    frequency axes above. *)
Definition params : MethodParams :=
  {| n_sample := 20; min_freq := 0.5; max_freq := 3.5 |}.

(** Four samples of a time base at 16384 Hz. *)
Definition times_16k : list float :=
  map (fun k => F64.of_nat k / 16384) (seq 0 4).

(** A data source with one specimen, number 7, of two chirp sweeps. *)
Definition data_source (specimen_id : Z) : result SweepSet :=
  if (specimen_id =? 7)%Z then Ok {| sweeps := [sweep_34; sweep_cut] |}
  else Raise KeyError.

(** 19 samples and then 100 zeros: a sweep that the averager leaves out. *)
Definition sweep_tail : Sweep := sweep 4 19 (repeat 0 100).

(** A band of one bin of the frequency axis of [sweep_34]. *)
Definition params_narrow : MethodParams :=
  {| n_sample := 20; min_freq := 0.5; max_freq := 0.75 |}.

(** An ontology file of three entries, the second one an older chirp
    entry. *)
Definition ontology_data : list stimulus :=
  [ [["code"; "C1LSFINEST"]; ["name"; "Long Square"]; ["core"; "Core 1"]];
    [["code"; "C2CHIRP171129"]; ["name"; "Chirp A"]];
    [["code"; "C1RP25PR1S"]; ["name"; "Ramp"]; ["core"; "Core 1"]] ]%string.

End Demo.

(** ** Notions used by the statements *)

(** Equality of float64 values as the program sees it: [x == y], or both
    NaN. *)
Definition feq (x y : float) : Prop :=
  (x =? y)%float = true \/ (is_nan x = true /\ is_nan y = true).

(** Two feature sets with the same names in the same order and equal
    values. *)
Definition features_eq (d d' : Features) : Prop :=
  Forall2 (fun a b => fst a = fst b /\ feq (snd a) (snd b)) d d'.

(** The feature sets of the sweeps on which [chirp_sweep_features] returns,
    in the order of the sweeps. *)
Definition successes `{NumLib} (method_params : MethodParams)
    (todo : list Sweep) : list Features :=
  flat_map (fun sweep =>
              match chirp_sweep_features sweep method_params with
              | Ok r => [r]
              | Raise _ => []
              end) todo.

(** The log records of the sweeps on which [chirp_sweep_features] raises, in
    the order of the sweeps: at [DEBUG] level for a [FeatureError], at
    [WARNING] level with the exception for any other. *)
Definition failures `{NumLib} (specimen_id : Z) (method_params : MethodParams)
    (todo : list Sweep) : log :=
  flat_map (fun sweep =>
              match chirp_sweep_features sweep method_params with
              | Ok _ => []
              | Raise exc =>
                  if is_FeatureError exc then [(DEBUG, SweepFeatureError exc)]
                  else [(WARNING,
                         SweepFailed (Sweep.sweep_number sweep) specimen_id exc)]
              end) todo.

(** The rank of a float64 that is not NaN: a triple whose lexicographic
    order is the order of the values (both zeros have one rank). *)
Definition rank (x : spec_float) : Z * Z * Z :=
  match x with
  | S754_nan => (3, 0, 0)
  | S754_infinity true => (-2, 0, 0)
  | S754_infinity false => (2, 0, 0)
  | S754_zero _ => (0, 0, 0)
  | S754_finite true m e => (-1, - e, Zneg m)
  | S754_finite false m e => (1, e, Zpos m)
  end%Z.

Definition klt (a b : Z * Z * Z) : Prop :=
  let '(a1, a2, a3) := a in
  let '(b1, b2, b3) := b in
  (a1 < b1 \/ (a1 = b1 /\ (a2 < b2 \/ (a2 = b2 /\ a3 < b3))))%Z.

Definition kle (a b : Z * Z * Z) : Prop := klt a b \/ a = b.

(** The rank that [np.argmax] maximises: NaN above every value. *)
Definition max_rank (x : float) : Z * Z * Z := rank (Prim2SF x).

(** The rank that [np.argmin] maximises: the order of the values reversed,
    NaN above again. *)
Definition min_rank (x : float) : Z * Z * Z :=
  if is_nan x then (3, 0, 0)%Z
  else let '(a, b, c) := rank (Prim2SF x) in (- a, - b, - c)%Z.

(** [x <= y] for [np.argmax]: NaN counts as the greatest value. *)
Definition max_le (x y : float) : Prop :=
  is_nan y = true \/ (x <=? y)%float = true.

Definition max_lt (x y : float) : Prop :=
  (is_nan x = false /\ is_nan y = true) \/ (x <? y)%float = true.

(** [x >= y] for [np.argmin]: NaN counts as the least value. *)
Definition min_le (x y : float) : Prop :=
  is_nan y = true \/ (y <=? x)%float = true.

Definition min_lt (x y : float) : Prop :=
  (is_nan x = false /\ is_nan y = true) \/ (y <? x)%float = true.

(** [k] is the first index of [a] whose item is extremal for [le]/[lt]. *)
Definition first_best (le lt : float -> float -> Prop)
    (a : list float) (k : nat) : Prop :=
  exists y, nth_error a k = Some y
            /\ (forall j x, nth_error a j = Some x -> le x y)
            /\ (forall j x, (j < k)%nat -> nth_error a j = Some x -> lt x y).

(** [out] holds the items of [a], [b] and [xf] at the indices from [low],
    included, to [high], excluded, where [low] and [high] are the indices
    that the Time-Index Locator gives for the band edges. *)
Definition half_open_band {A B} (a : list A) (b : list B) (xf : list float)
    (min_freq max_freq : float) (out : list A * list B * list float) : Prop :=
  exists low high,
    find_time_index xf min_freq = Ok low
    /\ find_time_index xf max_freq = Ok high
    /\ (low < length xf)%nat /\ (high < length xf)%nat
    /\ length (fst (fst out)) = (high - low)%nat
    /\ length (snd (fst out)) = (high - low)%nat
    /\ length (snd out) = (high - low)%nat
    /\ forall k, (k < high - low)%nat ->
         nth_error (fst (fst out)) k = nth_error a (low + k)
         /\ nth_error (snd (fst out)) k = nth_error b (low + k)
         /\ nth_error (snd out) k = nth_error xf (low + k).

(** [n] is the value of [x] truncated toward zero: [x] is
    [(-1)^s * m * 2^e] and [|n| <= m * 2^e < |n| + 1], with the sign of
    [x]. *)
Definition is_truncation (x : spec_float) (n : Z) : Prop :=
  match x with
  | S754_zero _ => n = 0%Z
  | S754_finite s m e =>
      (if s then n <= 0 else 0 <= n)%Z
      /\ (Z.abs n * 2 ^ Z.max 0 (- e) <= Zpos m * 2 ^ Z.max 0 e
          < (Z.abs n + 1) * 2 ^ Z.max 0 (- e))%Z
  | _ => False
  end.

(** As the spec words the downsampling step of the averager, for comparison
    with [downsample]: "an integer decimation width =
    round(current_rate / target_rate)". *)
Definition downsample_as_specified (avg_v avg_i t : list float) (down_rate : float)
  : result (list float * list float * list float) :=
  t1 <- getitem t 1 ;;
  t0 <- getitem t 0 ;;
  let current_rate := F64.rint (1 / (t1 - t0))%float in
  if (down_rate <? current_rate)%float then
    width <- F64.py_int (F64.rint (current_rate / down_rate)%float) ;;
    ds_v <- _subsample_average avg_v width ;;
    ds_i <- _subsample_average avg_i width ;;
    Ok (ds_v, ds_i, stride (Z.to_nat width) t)
  else Ok (avg_v, avg_i, t).

(** As the spec words the band restriction, for comparison with
    [band_slice]: "inclusive of boundary indices as located". *)
Definition band_slice_as_specified {A B} (a : list A) (b : list B)
    (xf : list float) (min_freq max_freq : float)
  : result (list A * list B * list float) :=
  low_ind <- find_time_index xf min_freq ;;
  high_ind <- find_time_index xf max_freq ;;
  Ok (slice low_ind (S high_ind) a, slice low_ind (S high_ind) b,
      slice low_ind (S high_ind) xf).

(** [raises_only P m]: whatever [m] raises satisfies [P]. *)
Definition raises_only {A} (P : exn -> Prop) (m : result A) : Prop :=
  forall e, m = Raise e -> P e.

(** The exceptions of the numeric code: neither a [FeatureError] nor outside
    [Exception]. *)
Definition numeric_error (e : exn) : Prop :=
  is_FeatureError e = false /\ is_Exception e = true.


(** The sweeps that the first loop of [chirp_amp_phase] keeps: those whose
    last 100 voltage samples are not all equal to zero. *)
Definition kept_sweeps (sweep_set : SweepSet) : list Sweep :=
  filter (fun s => negb (np_all_zero (last_n 100 (Sweep.v s)))) (sweeps sweep_set).

(** The entry [od] has a tag set that holds "code" and one of the codes. *)
Definition tags_code_of (codes : list string) (od : stimulus) : Prop :=
  exists tagset c,
    In tagset od /\ In c codes /\ In c tagset /\ In "code"%string tagset.

(** * Properties *)

(** ** The [result] monad *)

Lemma bind_Ok_inv {A B} (m : result A) (k : A -> result B) (b : B) :
  bind m k = Ok b -> exists a, m = Ok a /\ k a = Ok b.
Proof.
  destruct m as [a|e]; simpl; intros H; [eauto | discriminate].
Qed.

Lemma bind_Raise_inv {A B} (m : result A) (k : A -> result B) (e : exn) :
  bind m k = Raise e -> m = Raise e \/ exists a, m = Ok a /\ k a = Raise e.
Proof.
  destruct m as [a|e']; simpl; intros H; [right; eauto | left; congruence].
Qed.

Lemma raises_only_Ok {A} (P : exn -> Prop) (a : A) : raises_only P (Ok a).
Proof. intros e H; discriminate. Qed.

Lemma raises_only_Raise {A} (P : exn -> Prop) (e : exn) :
  P e -> raises_only P (@Raise A e).
Proof. intros HP e' H; inversion H; subst; exact HP. Qed.

Lemma raises_only_bind {A B} (P : exn -> Prop) (m : result A) (k : A -> result B) :
  raises_only P m -> (forall a, raises_only P (k a)) -> raises_only P (bind m k).
Proof.
  intros Hm Hk e H. apply bind_Raise_inv in H as [H | (a & _ & H)].
  - exact (Hm e H).
  - exact (Hk a e H).
Qed.

Create HintDb raises discriminated.

#[local] Hint Resolve raises_only_Ok raises_only_bind : raises.
#[local] Hint Extern 1 (raises_only numeric_error (Raise _)) =>
  apply raises_only_Raise; split; reflexivity : raises.

Ltac raises_cases :=
  repeat first
    [ progress intros
    | apply raises_only_bind
    | apply raises_only_Ok
    | (apply raises_only_Raise; split; reflexivity)
    | match goal with
      | |- raises_only _ (if ?c then _ else _) => destruct c
      | |- raises_only _ (match ?x with _ => _ end) => destruct x
      end ].

Lemma getitem_numeric {A} (a : list A) (k : nat) :
  raises_only numeric_error (getitem a k).
Proof. unfold getitem. raises_cases. Qed.

Lemma getlast_numeric {A} (a : list A) : raises_only numeric_error (getlast a).
Proof. unfold getlast. destruct a; [raises_cases | apply getitem_numeric]. Qed.

Lemma np_argmax_numeric a : raises_only numeric_error (np_argmax a).
Proof. unfold np_argmax. raises_cases. Qed.

Lemma np_argmin_numeric a : raises_only numeric_error (np_argmin a).
Proof. unfold np_argmin. raises_cases. Qed.

Lemma find_time_index_numeric t t_0 :
  raises_only numeric_error (find_time_index t t_0).
Proof. apply np_argmin_numeric. Qed.

Lemma py_int_numeric x : raises_only numeric_error (F64.py_int x).
Proof. unfold F64.py_int. raises_cases. Qed.

Lemma _subsample_average_numeric x width :
  raises_only numeric_error (_subsample_average x width).
Proof. unfold _subsample_average. raises_cases. Qed.

Lemma np_broadcast_numeric {A B C} (f : A -> B -> C) a b :
  raises_only numeric_error (np_broadcast f a b).
Proof.
  unfold np_broadcast.
  destruct (length a =? length b)%nat; [apply raises_only_Ok|].
  destruct a as [|x [|x' a]]; destruct b as [|y [|y' b]]; raises_cases.
Qed.

Lemma np_vstack_mean_numeric rows :
  raises_only numeric_error (np_vstack_mean rows).
Proof. unfold np_vstack_mean. raises_cases. Qed.

#[local] Hint Resolve getitem_numeric getlast_numeric np_argmax_numeric
  np_argmin_numeric find_time_index_numeric py_int_numeric
  _subsample_average_numeric np_broadcast_numeric np_vstack_mean_numeric
  : raises.

(** ** Array helpers *)

Lemma forallb_skipn_nth {A} (f : A -> bool) (a : list A) (n : nat) :
  forallb f (skipn n a) = true <->
  (forall k x, (n <= k)%nat -> nth_error a k = Some x -> f x = true).
Proof.
  revert n; induction a as [|y a IH]; intros n.
  - rewrite skipn_nil; simpl; split; [|reflexivity].
    intros _ k x _ H; destruct k; discriminate.
  - destruct n as [|n].
    + simpl; rewrite andb_true_iff, (IH 0%nat); simpl; split.
      * intros [Hy Ha] [|k] x _ H; simpl in H.
        -- now inversion H; subst.
        -- apply (Ha k); [lia | exact H].
      * intros H; split; [apply (H 0%nat); [lia | reflexivity]|].
        intros k x _ Hk; apply (H (S k)); [lia | exact Hk].
    + simpl; rewrite IH; split.
      * intros H [|k] x Hle Hk; [lia|]. apply (H k); [lia | exact Hk].
      * intros H k x Hle Hk; apply (H (S k)); [lia | exact Hk].
Qed.

(** [np.all(a[-n:] == 0)] says that every sample from index [len(a) - n] on
    (from the first one when [a] is shorter) compares equal to zero. *)
Lemma np_all_zero_last_n (n : nat) (a : list float) :
  np_all_zero (last_n n a) = true <->
  (forall k x, (length a - n <= k)%nat -> nth_error a k = Some x ->
               (x =? 0)%float = true).
Proof. unfold np_all_zero, last_n. apply forallb_skipn_nth. Qed.

(** ** Slices, strides and block means *)

Lemma slice_length {A} (lo hi : nat) (a : list A) :
  (hi <= length a)%nat -> length (slice lo hi a) = (hi - lo)%nat.
Proof.
  intros H. unfold slice. rewrite length_firstn, length_skipn. lia.
Qed.

Lemma slice_nth_error {A} (lo hi k : nat) (a : list A) :
  (k < hi - lo)%nat -> nth_error (slice lo hi a) k = nth_error a (lo + k).
Proof.
  intros H. unfold slice.
  rewrite nth_error_firstn.
  destruct (Nat.ltb_spec k (hi - lo)); [|lia].
  apply nth_error_skipn.
Qed.

Lemma slice_In {A} (lo hi : nat) (a : list A) (x : A) :
  In x (slice lo hi a) -> In x a.
Proof.
  intros H. apply In_nth_error in H as [k Hk].
  assert (Hlt : (k < hi - lo)%nat).
  { assert (Hn : nth_error (slice lo hi a) k <> None) by congruence.
    apply nth_error_Some in Hn.
    unfold slice in Hn. rewrite length_firstn in Hn. lia. }
  rewrite slice_nth_error in Hk by exact Hlt.
  eapply nth_error_In; eauto.
Qed.

Lemma stride_from_nth_error {A} (w : nat) (a : list A) :
  (1 <= w)%nat ->
  forall k j, nth_error (stride_from w k a) j = nth_error a (k + j * w).
Proof.
  intros Hw. induction a as [|x r IH]; intros k j; simpl.
  - now rewrite !nth_error_nil.
  - destruct k as [|k'].
    + destruct j as [|j']; [reflexivity|]. simpl.
      rewrite IH. destruct w as [|w']; [lia|]. simpl.
      f_equal. lia.
    + rewrite IH. reflexivity.
Qed.

(** [t[::w]] keeps the samples at the multiples of [w]. *)
Lemma stride_nth_error {A} (w j : nat) (a : list A) :
  (1 <= w)%nat -> nth_error (stride w a) j = nth_error a (j * w).
Proof. intros Hw. unfold stride. now rewrite stride_from_nth_error. Qed.

Lemma subsample_blocks_length (w : nat) (a cur : list float) :
  (length cur < w)%nat ->
  length (subsample_blocks w cur a) = ((length cur + length a) / w)%nat.
Proof.
  revert cur; induction a as [|x r IH]; intros cur Hcur; simpl.
  - rewrite Nat.add_0_r. symmetry. now apply Nat.div_small.
  - rewrite length_app; simpl.
    destruct (Nat.eqb_spec (length cur + 1) w) as [E|E]; simpl.
    + rewrite (IH []) by (simpl; lia). simpl.
      replace (length cur + S (length r))%nat with (1 * w + length r)%nat by lia.
      rewrite Nat.div_add_l by lia. reflexivity.
    + rewrite IH by (rewrite length_app; simpl; lia).
      rewrite length_app; simpl. f_equal. lia.
Qed.

(** The Resampler's output has floor(len / width) items. *)
Lemma _subsample_average_length x width y :
  _subsample_average x width = Ok y ->
  (1 <= width)%Z /\ length y = (length x / Z.to_nat width)%nat.
Proof.
  unfold _subsample_average. destruct (Z.ltb_spec width 1) as [Hlt|Hge];
    [discriminate|].
  intros H; inversion H; subst. split; [lia|].
  rewrite subsample_blocks_length by (simpl; lia). reflexivity.
Qed.

Lemma np_linspace_length start stop num :
  length (np_linspace start stop num) = num.
Proof.
  unfold np_linspace.
  set (y := map _ (if (0 <? num - 1)%nat then _ else _)).
  assert (Hy : length y = num).
  { unfold y. rewrite length_map.
    destruct (0 <? num - 1)%nat; [destruct (_ =? _)%float|];
      now rewrite !length_map, length_seq. }
  destruct (Nat.ltb_spec 1 num) as [Hlt|Hge]; [|exact Hy].
  rewrite length_app, length_firstn; simpl. lia.
Qed.

Lemma argmin_from_bound a : forall k mp mi,
  (mi < k)%nat -> (argmin_from a k mp mi < k + length a)%nat.
Proof.
  induction a as [|x r IH]; intros k mp mi H; simpl; [lia|].
  destruct (negb (mp <=? x)%float); [destruct (is_nan x)|].
  - lia.
  - specialize (IH (S k) x k). lia.
  - specialize (IH (S k) mp mi). lia.
Qed.

(** The Time-Index Locator returns an index of the array. *)
Lemma find_time_index_bound t t_0 k :
  find_time_index t t_0 = Ok k -> (k < length t)%nat.
Proof.
  unfold find_time_index, np_argmin. destruct t as [|x0 r]; simpl; [discriminate|].
  intros H; inversion H; subst. destruct (is_nan _); [lia|].
  pose proof (argmin_from_bound (map (fun x => abs (x - t_0)%float) r) 1
                (abs (x0 - t_0)%float) 0) as Hb.
  rewrite length_map in Hb. lia.
Qed.

Lemma np_broadcast_length {A B C} (f : A -> B -> C) a b c :
  length a = length b -> np_broadcast f a b = Ok c -> length c = length a.
Proof.
  intros Hlen. unfold np_broadcast. rewrite Hlen, Nat.eqb_refl.
  intros H; inversion H; subst.
  rewrite length_map, length_combine. lia.
Qed.

Lemma np_vstack_mean_length rows avg :
  np_vstack_mean rows = Ok avg ->
  exists r0 rest, rows = r0 :: rest /\ length avg = length r0.
Proof.
  unfold np_vstack_mean. destruct rows as [|r0 rest]; [discriminate|].
  destruct (forallb _ rest) eqn:Hall; [|discriminate].
  intros H; inversion H; subst; clear H. exists r0, rest. split; [reflexivity|].
  rewrite length_map.
  rewrite forallb_forall in Hall.
  assert (Hgen : forall acc, length acc = length r0 ->
            length (fold_left
                      (fun acc r => map (fun p => (fst p + snd p)%float) (combine acc r))
                      rest acc) = length r0).
  { clear - Hall. induction rest as [|r rest IH]; intros acc Hacc; simpl; [exact Hacc|].
    apply IH.
    - intros x Hx. apply Hall. now right.
    - rewrite length_map, length_combine.
      specialize (Hall r (or_introl eq_refl)). apply Nat.eqb_eq in Hall. lia. }
  now apply Hgen.
Qed.

(** ** The order of float64 values *)

Lemma klt_irrefl a : ~ klt a a.
Proof. destruct a as [[a1 a2] a3]; unfold klt; lia. Qed.

Lemma klt_trans a b c : klt a b -> klt b c -> klt a c.
Proof.
  destruct a as [[a1 a2] a3], b as [[b1 b2] b3], c as [[c1 c2] c3].
  unfold klt; lia.
Qed.

Lemma klt_total a b : klt a b \/ a = b \/ klt b a.
Proof.
  destruct a as [[a1 a2] a3], b as [[b1 b2] b3]; unfold klt.
  destruct (Z.lt_total a1 b1) as [?|[?|?]];
    destruct (Z.lt_total a2 b2) as [?|[?|?]];
    destruct (Z.lt_total a3 b3) as [?|[?|?]]; subst; auto; lia.
Qed.

Lemma kle_lt_trans a b c : kle a b -> klt b c -> klt a c.
Proof. intros [H| ->] Hc; [eapply klt_trans; eauto | exact Hc]. Qed.

Lemma klt_le_trans a b c : klt a b -> kle b c -> klt a c.
Proof. intros Ha [H| <-]; [eapply klt_trans; eauto | exact Ha]. Qed.

Lemma kle_trans a b c : kle a b -> kle b c -> kle a c.
Proof.
  intros [H| ->] Hc; [left; eapply klt_le_trans; eauto | exact Hc].
Qed.

Lemma not_klt_kle a b : ~ klt a b -> kle b a.
Proof. destruct (klt_total a b) as [?|[?|?]]; unfold kle; intuition. Qed.

Lemma kle_not_klt a b : kle a b -> ~ klt b a.
Proof.
  intros [H| ->] H'; eapply klt_irrefl; [eapply klt_trans|]; eauto.
Qed.

(** The comparison of two values that are not NaN is the lexicographic
    comparison of their ranks. *)
Lemma SFcompare_rank (x y : spec_float) :
  x <> S754_nan -> y <> S754_nan ->
  match SFcompare x y with
  | Some Lt => klt (rank x) (rank y)
  | Some Eq => rank x = rank y
  | Some Gt => klt (rank y) (rank x)
  | None => False
  end.
Proof.
  intros Hx Hy.
  destruct x as [sx|sx| |sx mx ex], y as [sy|sy| |sy my ey];
    try congruence;
    try destruct sx; try destruct sy; simpl; try reflexivity; try lia.
  - change (Pos.compare_cont Eq mx my) with (Pos.compare mx my).
    destruct (Z.compare_spec ex ey) as [->|H|H]; try lia.
    destruct (Pos.compare_spec mx my) as [->|H|H]; simpl; try reflexivity; lia.
  - change (Pos.compare_cont Eq mx my) with (Pos.compare mx my).
    destruct (Z.compare_spec ex ey) as [->|H|H]; try lia.
    destruct (Pos.compare_spec mx my) as [->|H|H]; simpl; try reflexivity; lia.
Qed.

Lemma is_nan_Prim2SF (x : float) :
  is_nan x = true <-> Prim2SF x = S754_nan.
Proof.
  unfold Prim2SF. destruct (is_nan x); split; try reflexivity; try discriminate.
  destruct (is_zero x); [discriminate|].
  destruct (is_infinity x); [discriminate|].
  destruct (Z.frexp x) as [r e].
  destruct (shr_fexp prec emax _ _ _) as [shr e'].
  destruct (shr_m shr); discriminate.
Qed.

Lemma not_nan_Prim2SF (x : float) :
  is_nan x = false <-> Prim2SF x <> S754_nan.
Proof.
  rewrite <- is_nan_Prim2SF. destruct (is_nan x); split; congruence.
Qed.

Lemma rank_below_top (x : spec_float) : x <> S754_nan -> klt (rank x) (3, 0, 0)%Z.
Proof.
  destruct x as [s|s| |s m e]; try congruence; try destruct s; intros _;
    unfold klt; simpl; lia.
Qed.

Lemma rank_le_top (x : spec_float) : kle (rank x) (3, 0, 0)%Z.
Proof.
  destruct x as [s|s| |s m e]; try (right; reflexivity);
    left; apply rank_below_top; discriminate.
Qed.

(** The readings of [<=?] and [<?] on ranks, for values that are not NaN. *)
Lemma leb_rank (x y : float) :
  is_nan x = false -> is_nan y = false ->
  ((x <=? y)%float = true <-> kle (rank (Prim2SF x)) (rank (Prim2SF y))).
Proof.
  rewrite !not_nan_Prim2SF, leb_spec. intros Hx Hy. unfold SFleb.
  pose proof (SFcompare_rank _ _ Hx Hy) as H.
  destruct (SFcompare (Prim2SF x) (Prim2SF y)) as [[| |]|]; try contradiction.
  - split; [right; exact H | reflexivity].
  - split; [left; exact H | reflexivity].
  - split; [discriminate|]. intros H'. now apply kle_not_klt in H'.
Qed.

Lemma ltb_rank (x y : float) :
  is_nan x = false -> is_nan y = false ->
  ((x <? y)%float = true <-> klt (rank (Prim2SF x)) (rank (Prim2SF y))).
Proof.
  rewrite !not_nan_Prim2SF, ltb_spec. intros Hx Hy. unfold SFltb.
  pose proof (SFcompare_rank _ _ Hx Hy) as H.
  destruct (SFcompare (Prim2SF x) (Prim2SF y)) as [[| |]|]; try contradiction.
  - split; [discriminate|]. rewrite H. intros H'. now apply klt_irrefl in H'.
  - split; [intros _; exact H | reflexivity].
  - split; [discriminate|]. intros H'.
    exfalso. eapply klt_irrefl, klt_trans; eauto.
Qed.

Lemma leb_nan_l (x y : float) : is_nan x = true -> (x <=? y)%float = false.
Proof.
  rewrite is_nan_Prim2SF, leb_spec. intros ->. reflexivity.
Qed.

Lemma leb_nan_r (x y : float) : is_nan y = true -> (x <=? y)%float = false.
Proof.
  rewrite is_nan_Prim2SF, leb_spec. intros ->.
  unfold SFleb, SFcompare. now destruct (Prim2SF x).
Qed.

Lemma ltb_nan_l (x y : float) : is_nan x = true -> (x <? y)%float = false.
Proof.
  rewrite is_nan_Prim2SF, ltb_spec. intros ->. reflexivity.
Qed.

Lemma ltb_nan_r (x y : float) : is_nan y = true -> (x <? y)%float = false.
Proof.
  rewrite is_nan_Prim2SF, ltb_spec. intros ->.
  unfold SFltb, SFcompare. now destruct (Prim2SF x).
Qed.

Lemma max_rank_nan (x : float) : is_nan x = true <-> max_rank x = (3, 0, 0)%Z.
Proof.
  unfold max_rank. rewrite is_nan_Prim2SF. split; [now intros ->|].
  destruct (Prim2SF x) as [s|s| |s m e]; try destruct s; simpl;
    congruence.
Qed.

Lemma min_rank_nan (x : float) : is_nan x = true <-> min_rank x = (3, 0, 0)%Z.
Proof.
  unfold min_rank. destruct (is_nan x) eqn:E; split; try reflexivity; try discriminate.
  apply not_nan_Prim2SF in E.
  destruct (Prim2SF x) as [s|s| |s m e]; try destruct s; simpl;
    try congruence; intros H; inversion H.
Qed.

Lemma max_rank_le_top (x : float) : kle (max_rank x) (3, 0, 0)%Z.
Proof. apply rank_le_top. Qed.

Lemma min_rank_le_top (x : float) : kle (min_rank x) (3, 0, 0)%Z.
Proof.
  unfold min_rank. destruct (is_nan x) eqn:E; [right; reflexivity|].
  apply not_nan_Prim2SF in E. left.
  destruct (Prim2SF x) as [s|s| |s m e]; try destruct s; try congruence;
    unfold klt; simpl; lia.
Qed.

Lemma klt_opp a b c a' b' c' :
  klt (- a, - b, - c)%Z (- a', - b', - c')%Z <-> klt (a', b', c') (a, b, c).
Proof. unfold klt; lia. Qed.

(** The update tests of [np.argmax] and [np.argmin] against a running
    extremum that is not NaN. *)
Lemma argmax_test (x mp : float) :
  is_nan mp = false ->
  (negb (x <=? mp)%float = true <-> klt (max_rank mp) (max_rank x)).
Proof.
  intros Hmp. unfold max_rank. rewrite negb_true_iff.
  destruct (is_nan x) eqn:Hx.
  - rewrite (leb_nan_l _ mp Hx). apply is_nan_Prim2SF in Hx. rewrite Hx.
    split; [intros _|reflexivity].
    apply rank_below_top. now apply not_nan_Prim2SF.
  - pose proof (leb_rank _ _ Hx Hmp) as H.
    destruct (x <=? mp)%float.
    + split; [discriminate|]. intros H'.
      exfalso. apply (kle_not_klt _ _ (proj1 H eq_refl)), H'.
    + split; [intros _|reflexivity].
      destruct (klt_total (rank (Prim2SF mp)) (rank (Prim2SF x)))
        as [H'|[H'|H']]; [exact H'| |].
      * assert (true = false) by (symmetry; apply H; right; now symmetry).
        discriminate.
      * assert (false = true) by (apply H; now left). discriminate.
Qed.

Lemma argmin_test (x mp : float) :
  is_nan mp = false ->
  (negb (mp <=? x)%float = true <-> klt (min_rank mp) (min_rank x)).
Proof.
  intros Hmp. unfold min_rank. rewrite Hmp, negb_true_iff.
  destruct (is_nan x) eqn:Hx.
  - rewrite (leb_nan_r mp _ Hx). split; [intros _|reflexivity].
    apply not_nan_Prim2SF in Hmp.
    destruct (Prim2SF mp) as [s|s| |s m e]; try destruct s; try congruence;
      unfold klt; simpl; lia.
  - pose proof (leb_rank _ _ Hmp Hx) as H.
    destruct (rank (Prim2SF mp)) as [[a b] c], (rank (Prim2SF x)) as [[a' b'] c'].
    rewrite klt_opp.
    destruct (mp <=? x)%float.
    + split; [discriminate|]. intros H'.
      exfalso. apply (kle_not_klt _ _ (proj1 H eq_refl)), H'.
    + split; [intros _|reflexivity].
      destruct (klt_total (a', b', c') (a, b, c)) as [H'|[H'|H']]; [exact H'| |].
      * assert (true = false) by (symmetry; apply H; right; now symmetry).
        discriminate.
      * assert (false = true) by (apply H; now left). discriminate.
Qed.

(** ** Two exact operations of float64 *)

Lemma div_eucl_mul (a b : Z) : (0 < b)%Z -> Z.div_eucl (a * b) b = (a, 0%Z).
Proof.
  intros Hb. destruct (Z.div_eucl (a * b) b) as [q r] eqn:E.
  assert (Hq : q = (a * b / b)%Z) by (unfold Z.div; now rewrite E).
  assert (Hr : r = ((a * b) mod b)%Z) by (unfold Z.modulo; now rewrite E).
  rewrite Z.div_mul in Hq by lia. rewrite Z.mod_mul in Hr by lia.
  now subst.
Qed.

(** The quotient of a finite binary64 number by 1 is computed exactly: the
    mantissa is shifted by one bit at most and shifted back by the
    rounding. *)
Lemma SFdiv_one (s : bool) (m : positive) (e : Z) :
  bounded prec emax m e = true ->
  SF64div (S754_finite s m e) (S754_finite false 4503599627370496 (-52))
  = S754_finite s m e.
Proof.
  unfold bounded, canonical_mantissa. rewrite andb_true_iff, Z.eqb_eq, Z.leb_le.
  intros [Hcan Hmax].
  unfold SF64div, SFdiv, SFdiv_core_binary.
  change (Zdigits2 (Z.pos m)) with (Z.pos (digits2_pos m)).
  change (Zdigits2 4503599627370496) with 53%Z.
  unfold fexp, emin, prec, emax in *.
  set (d := Z.pos (digits2_pos m)) in *.
  assert (Hd : (0 < d)%Z) by (unfold d; lia).
  rewrite xorb_false_r.
  destruct (Z.eq_dec d 53) as [Hd53|Hd53];
    [destruct (Z.eq_dec e (-1074)) as [He|He]|].
  all: match goal with
       | |- context [Z.min ?a ?b] =>
         let E := fresh "E" in
         first [ assert (E : Z.min a b = (e - 1)%Z) by lia
               | assert (E : Z.min a b = e) by lia ];
         rewrite E; clear E
       end.
  2: { replace (e - -52 - (e - 1))%Z with 53%Z by lia.
       cbv iota beta.
       rewrite Z.shiftl_mul_pow2 by lia.
       replace (Z.pos m * 2 ^ 53)%Z with (Z.pos m~0 * 4503599627370496)%Z by lia.
       rewrite div_eucl_mul by lia.
       change (new_location 4503599627370496 0) with loc_Exact.
       unfold binary_round_aux, shr_fexp, shr_record_of_loc.
       change (Zdigits2 (Z.pos m~0)) with (Z.pos (Pos.succ (digits2_pos m))).
       rewrite Pos2Z.inj_succ. fold d. unfold fexp, emin.
       replace (Z.max (Z.succ d + (e - 1) - 53) (3 - 1024 - 53) - (e - 1))%Z
         with 1%Z by lia.
       cbv beta iota zeta delta
         [shr SpecFloat.iter_pos shr_1 shr_m shr_r shr_s loc_of_shr_record
          round_nearest_even orb].
       change (Zdigits2 (Z.pos m)) with d.
       replace (e - 1 + 1)%Z with e by lia.
       replace (Z.max (d + e - 53) (3 - 1024 - 53) - e)%Z with 0%Z by lia.
       cbv beta iota zeta delta [shr shr_m].
       destruct (Z.leb_spec e (1024 - 53)); [reflexivity | lia]. }
  all: replace (e - -52 - e)%Z with 52%Z by lia;
       cbv iota beta;
       rewrite Z.shiftl_mul_pow2 by lia;
       change (2 ^ 52)%Z with 4503599627370496%Z;
       rewrite div_eucl_mul by lia;
       change (new_location 4503599627370496 0) with loc_Exact;
       unfold binary_round_aux, shr_fexp, shr_record_of_loc;
       change (Zdigits2 (Z.pos m)) with d; unfold fexp, emin;
       replace (Z.max (d + e - 53) (3 - 1024 - 53) - e)%Z with 0%Z by lia;
       cbv beta iota zeta delta
         [shr SpecFloat.iter_pos shr_1 shr_m shr_r shr_s loc_of_shr_record
          round_nearest_even orb];
       change (Zdigits2 (Z.pos m)) with d;
       replace (Z.max (d + e - 53) (3 - 1024 - 53) - e)%Z with 0%Z by lia;
       cbv beta iota zeta delta [shr shr_m];
       (destruct (Z.leb_spec e (1024 - 53)); [reflexivity | lia]).
Qed.

(** [x / 1] is [x], for every float64 [x]. *)
Lemma div_1_r (x : float) : (x / 1)%float = x.
Proof.
  apply Prim2SF_inj. rewrite div_spec.
  change (Prim2SF 1) with (S754_finite false 4503599627370496 (-52)).
  pose proof (Prim2SF_valid x) as Hv.
  destruct (Prim2SF x) as [s|s| |s m e]; try reflexivity.
  - simpl. now rewrite xorb_false_r.
  - simpl. now rewrite xorb_false_r.
  - now apply SFdiv_one.
Qed.

Lemma feq_refl (x : float) : feq x x.
Proof.
  unfold feq. destruct (is_nan x) eqn:Hx; [now right | left].
  rewrite FloatAxioms.eqb_spec. apply not_nan_Prim2SF in Hx. unfold SFeqb.
  pose proof (SFcompare_rank _ _ Hx Hx) as H.
  destruct (SFcompare (Prim2SF x) (Prim2SF x)) as [[| |]|];
    try reflexivity; try contradiction; exfalso; eapply klt_irrefl; eauto.
Qed.

(** [0 + x] is [x], up to the sign of a zero. *)
Lemma add_0_l (x : float) : feq (0 + x)%float x.
Proof.
  pose proof (add_spec 0 x) as H.
  change (Prim2SF 0) with (S754_zero false) in H.
  destruct (Prim2SF x) as [s|s| |s m e] eqn:Ex.
  - left. rewrite FloatAxioms.eqb_spec, H, Ex. now destruct s.
  - assert (E : (0 + x)%float = x) by (apply Prim2SF_inj; now rewrite H, Ex).
    rewrite E. apply feq_refl.
  - right. split; apply is_nan_Prim2SF; [now rewrite H | exact Ex].
  - assert (E : (0 + x)%float = x) by (apply Prim2SF_inj; now rewrite H, Ex).
    rewrite E. apply feq_refl.
Qed.

(** ** [np.argmax] and [np.argmin] *)

Section ArgBest.

(** One proof for both scans: [from] is the scan, [test] its update test and
    [K] the rank that the test compares. *)
Variable K : float -> Z * Z * Z.
Variable test : float -> float -> bool.
Variable from : list float -> nat -> float -> nat -> nat.

Hypothesis K_top : forall x, kle (K x) (3, 0, 0)%Z.
Hypothesis K_nan : forall x, is_nan x = true <-> K x = (3, 0, 0)%Z.
Hypothesis test_spec :
  forall x mp, is_nan mp = false -> (test x mp = true <-> klt (K mp) (K x)).
Hypothesis from_nil : forall k mp mi, from [] k mp mi = mi.
Hypothesis from_cons :
  forall x r k mp mi,
    from (x :: r) k mp mi
    = if test x mp then if is_nan x then k else from r (S k) x k
      else from r (S k) mp mi.

Lemma from_spec (a : list float) :
  forall k mp mi, is_nan mp = false ->
    (from a k mp mi = mi
     /\ forall j x, nth_error a j = Some x -> kle (K x) (K mp))
    \/ (exists j y,
          from a k mp mi = (k + j)%nat
          /\ nth_error a j = Some y
          /\ klt (K mp) (K y)
          /\ (forall j' x, nth_error a j' = Some x -> kle (K x) (K y))
          /\ (forall j' x, (j' < j)%nat -> nth_error a j' = Some x ->
                           klt (K x) (K y))).
Proof.
  induction a as [|x r IH]; intros k mp mi Hmp.
  - left. rewrite from_nil. split; [reflexivity|].
    intros [|j] y H; discriminate.
  - rewrite from_cons. destruct (test x mp) eqn:Ht.
    + apply (test_spec x mp Hmp) in Ht. right.
      destruct (is_nan x) eqn:Hx.
      * exists 0%nat, x. split; [lia|]. split; [reflexivity|]. split; [exact Ht|].
        apply K_nan in Hx. rewrite Hx. split; [intros; apply K_top | intros; lia].
      * destruct (IH (S k) x k Hx) as [[Hr Hall]|(j & y & Hr & Hy & Hlt & Hall & Hfirst)].
        -- exists 0%nat, x. split; [lia|]. split; [reflexivity|]. split; [exact Ht|].
           split; [|intros; lia].
           intros [|j'] x' H; simpl in H.
           ++ inversion H; subst. now right.
           ++ eapply Hall; eauto.
        -- exists (S j), y. split; [lia|]. split; [exact Hy|].
           split; [eapply klt_trans; eauto|]. split.
           ++ intros [|j'] x' H; simpl in H.
              ** inversion H; subst. now left.
              ** eapply Hall; eauto.
           ++ intros [|j'] x' Hj H; simpl in H.
              ** inversion H; subst. exact Hlt.
              ** eapply Hfirst; [|eauto]. lia.
    + assert (Hle : kle (K x) (K mp)).
      { apply not_klt_kle. intros H. apply (test_spec x mp Hmp) in H. congruence. }
      destruct (IH (S k) mp mi Hmp) as [[Hr Hall]|(j & y & Hr & Hy & Hlt & Hall & Hfirst)].
      * left. split; [exact Hr|].
        intros [|j'] x' H; simpl in H.
        -- inversion H; subst. exact Hle.
        -- eapply Hall; eauto.
      * right. exists (S j), y. split; [lia|]. split; [exact Hy|].
        split; [exact Hlt|]. split.
        -- intros [|j'] x' H; simpl in H.
           ++ inversion H; subst. left. eapply kle_lt_trans; eauto.
           ++ eapply Hall; eauto.
        -- intros [|j'] x' Hj H; simpl in H.
           ++ inversion H; subst. eapply kle_lt_trans; eauto.
           ++ eapply Hfirst; [|eauto]. lia.
Qed.

(** The scan started as [np.argmax] and [np.argmin] start it gives the first
    index of greatest rank. *)
Lemma scan_first_best (x0 : float) (r : list float) :
  first_best (fun x y => kle (K x) (K y)) (fun x y => klt (K x) (K y))
    (x0 :: r) (if is_nan x0 then 0%nat else from r 1 x0 0).
Proof.
  unfold first_best. destruct (is_nan x0) eqn:H0.
  - exists x0. split; [reflexivity|]. apply K_nan in H0. rewrite H0.
    split; [intros; apply K_top | intros; lia].
  - destruct (from_spec r 1 x0 0 H0) as [[Hr Hall]|(j & y & Hr & Hy & Hlt & Hall & Hfirst)];
      rewrite Hr.
    + exists x0. split; [reflexivity|]. split; [|intros; lia].
      intros [|j] x H; simpl in H.
      * inversion H; subst. now right.
      * eapply Hall; eauto.
    + exists y. split; [exact Hy|]. split.
      * intros [|j'] x H; simpl in H.
        -- inversion H; subst. now left.
        -- eapply Hall; eauto.
      * intros [|j'] x Hj H; simpl in H.
        -- inversion H; subst. exact Hlt.
        -- eapply Hfirst; [|eauto]. lia.
Qed.

End ArgBest.

Lemma first_best_weaken (le lt le' lt' : float -> float -> Prop) a k :
  (forall x y, le x y -> le' x y) -> (forall x y, lt x y -> lt' x y) ->
  first_best le lt a k -> first_best le' lt' a k.
Proof.
  intros Hle Hlt (y & Hy & Hall & Hfirst). exists y. split; [exact Hy|].
  split; [intros j x H; eapply Hle, Hall, H | intros j x Hj H; eapply Hlt, Hfirst; eauto].
Qed.

Lemma max_rank_le (x y : float) : kle (max_rank x) (max_rank y) -> max_le x y.
Proof.
  unfold max_le. intros H. destruct (is_nan y) eqn:Hy; [now left|right].
  destruct (is_nan x) eqn:Hx.
  - exfalso. apply max_rank_nan in Hx. rewrite Hx in H.
    apply (kle_not_klt _ _ H). apply rank_below_top. now apply not_nan_Prim2SF.
  - now apply leb_rank.
Qed.

Lemma max_rank_lt (x y : float) : klt (max_rank x) (max_rank y) -> max_lt x y.
Proof.
  unfold max_lt. intros H. destruct (is_nan x) eqn:Hx.
  - exfalso. apply max_rank_nan in Hx. rewrite Hx in H.
    apply (kle_not_klt _ _ (max_rank_le_top y)), H.
  - destruct (is_nan y) eqn:Hy; [now left|right]. now apply ltb_rank.
Qed.

Lemma min_rank_le (x y : float) : kle (min_rank x) (min_rank y) -> min_le x y.
Proof.
  unfold min_le. intros H. destruct (is_nan y) eqn:Hy; [now left|right].
  destruct (is_nan x) eqn:Hx.
  - exfalso. apply min_rank_nan in Hx. rewrite Hx in H.
    apply (kle_not_klt _ _ H).
    destruct (min_rank_le_top y) as [Hlt|Heq]; [exact Hlt|].
    apply min_rank_nan in Heq. congruence.
  - apply leb_rank; try assumption. unfold min_rank in H. rewrite Hx, Hy in H.
    destruct (rank (Prim2SF x)) as [[a b] c], (rank (Prim2SF y)) as [[a' b'] c'].
    destruct H as [H|H].
    + left. now apply klt_opp.
    + right. inversion H. f_equal; [f_equal|]; lia.
Qed.

Lemma min_rank_lt (x y : float) : klt (min_rank x) (min_rank y) -> min_lt x y.
Proof.
  unfold min_lt. intros H. destruct (is_nan x) eqn:Hx.
  - exfalso. apply min_rank_nan in Hx. rewrite Hx in H.
    apply (kle_not_klt _ _ (min_rank_le_top y)), H.
  - destruct (is_nan y) eqn:Hy; [now left|right].
    apply ltb_rank; try assumption. unfold min_rank in H. rewrite Hx, Hy in H.
    destruct (rank (Prim2SF x)) as [[a b] c], (rank (Prim2SF y)) as [[a' b'] c'].
    now apply klt_opp.
Qed.

(** [np.argmax] of a non-empty array returns the first index of its greatest
    item, NaN counting as the greatest value. *)
Lemma np_argmax_first_best (a : list float) :
  a <> [] -> exists k, np_argmax a = Ok k /\ first_best max_le max_lt a k.
Proof.
  destruct a as [|x0 r]; [congruence|]. intros _.
  eexists; split; [reflexivity|].
  eapply first_best_weaken; [apply max_rank_le | apply max_rank_lt |].
  apply (scan_first_best max_rank (fun x mp => negb (x <=? mp)%float) argmax_from);
    try reflexivity.
  - apply max_rank_le_top.
  - apply max_rank_nan.
  - apply argmax_test.
Qed.

(** [np.argmin], likewise, with NaN counting as the least value. *)
Lemma np_argmin_first_best (a : list float) :
  a <> [] -> exists k, np_argmin a = Ok k /\ first_best min_le min_lt a k.
Proof.
  destruct a as [|x0 r]; [congruence|]. intros _.
  eexists; split; [reflexivity|].
  eapply first_best_weaken; [apply min_rank_le | apply min_rank_lt |].
  apply (scan_first_best min_rank (fun x mp => negb (mp <=? x)%float) argmin_from);
    try reflexivity.
  - apply min_rank_le_top.
  - apply min_rank_nan.
  - apply argmin_test.
Qed.

Section Pipeline.

Context {L : NumLib}.

(** ** No [FeatureError] below the truncation check *)

Lemma savgol_filter_numeric x w p :
  raises_only numeric_error (savgol_filter x w p).
Proof. unfold savgol_filter. raises_cases. Qed.

Lemma fftpack_fft_numeric x : raises_only numeric_error (fftpack_fft x).
Proof. unfold fftpack_fft. raises_cases. Qed.

Lemma int_truediv_numeric a b : raises_only numeric_error (int_truediv a b).
Proof. unfold int_truediv. raises_cases. Qed.

Lemma ceil_truediv_numeric a b : raises_only numeric_error (ceil_truediv a b).
Proof. unfold ceil_truediv. raises_cases. Qed.

Lemma np_pad_numeric a pad : raises_only numeric_error (np_pad a pad).
Proof. unfold np_pad. raises_cases. Qed.

Lemma band_slice_numeric {A B} (a : list A) (b : list B) xf lo hi :
  raises_only numeric_error (band_slice a b xf lo hi).
Proof.
  unfold band_slice.
  repeat (apply raises_only_bind; [apply find_time_index_numeric | intros]).
  apply raises_only_Ok.
Qed.

#[local] Hint Resolve savgol_filter_numeric fftpack_fft_numeric
  int_truediv_numeric ceil_truediv_numeric np_pad_numeric band_slice_numeric
  : raises.

Lemma transform_traces_numeric v i t n_sample min_freq max_freq :
  raises_only numeric_error (transform_traces v i t n_sample min_freq max_freq).
Proof.
  unfold transform_traces.
  repeat (apply raises_only_bind; [solve [auto with raises] | intros]).
  auto with raises.
Qed.


(** ** The block width of a short epoch *)

Lemma int_truediv_short (N n_sample : Z) :
  (0 <= N < n_sample)%Z -> int_truediv N n_sample = Ok 0%Z.
Proof.
  intros H. unfold int_truediv.
  destruct (Z.eqb_spec n_sample 0) as [->|_]; [lia|].
  now rewrite Z.quot_small.
Qed.

Lemma transform_traces_short v i t n_sample min_freq max_freq :
  (Z.of_nat (length v) < n_sample)%Z ->
  transform_traces v i t n_sample min_freq max_freq = Raise ZeroDivisionError.
Proof.
  intros H. unfold transform_traces.
  rewrite int_truediv_short by lia. reflexivity.
Qed.

(** C10.  When the stimulus epoch has fewer than [n_sample] samples the block
    width [int(N / n_sample)] is 0, the padding computation [N / width]
    divides by zero and [transform_sweep] raises (the [FeatureError] of a
    truncated epoch, or else the [ZeroDivisionError]) instead of returning;
    so it returns only when the epoch has [n_sample] samples at least. *)
Theorem transform_sweep_short_epoch_raises
    (sweep : Sweep) (n_sample : Z) (min_freq max_freq : float) :
  let epoch := Sweep.select_epoch_stim sweep in
  let N := Z.of_nat (length (Sweep.v epoch)) in
  ((N < n_sample)%Z ->
     int_truediv N n_sample = Ok 0%Z
     /\ ceil_truediv N 0 = Raise ZeroDivisionError
     /\ ((exists msg, transform_sweep sweep n_sample min_freq max_freq
                      = Raise (FeatureError msg))
         \/ transform_sweep sweep n_sample min_freq max_freq
            = Raise ZeroDivisionError)
     /\ raises (transform_sweep sweep n_sample min_freq max_freq))
  /\ (returns (transform_sweep sweep n_sample min_freq max_freq) ->
      (n_sample <= N)%Z).
Proof.
  intros epoch N.
  assert (Hshort : (N < n_sample)%Z ->
            (exists msg, transform_sweep sweep n_sample min_freq max_freq
                         = Raise (FeatureError msg))
            \/ transform_sweep sweep n_sample min_freq max_freq
               = Raise ZeroDivisionError).
  { intros H. unfold transform_sweep; fold epoch.
    destruct (np_all_zero (last_n 10 (Sweep.v epoch))); [left; eauto|].
    right. now apply transform_traces_short. }
  split.
  - intros H. split; [apply int_truediv_short; subst N; lia|].
    split; [reflexivity|]. split; [auto|].
    destruct (Hshort H) as [[msg E]|E]; rewrite E; eexists; reflexivity.
  - intros [a Ha]. destruct (Z.lt_ge_cases N n_sample) as [H|H]; [|exact H].
    destruct (Hshort H) as [[msg E]|E]; rewrite E in Ha; discriminate.
Qed.

(** ** The truncated-sweep filter of the averager *)

Lemma stack_sweeps_filter (todo : list Sweep) (v_list i_list : list (list float)) :
  let kept := filter (fun s => negb (np_all_zero (last_n 100 (Sweep.v s)))) todo in
  stack_sweeps todo v_list i_list
  = (v_list ++ map Sweep.v kept, i_list ++ map Sweep.i kept).
Proof.
  revert v_list i_list; induction todo as [|s todo IH]; intros v_list i_list; simpl.
  - now rewrite !app_nil_r.
  - destruct (np_all_zero (last_n 100 (Sweep.v s))); simpl.
    + apply IH.
    + rewrite IH, <- !app_assoc. reflexivity.
Qed.

(** C4.  The stack that [chirp_amp_phase] averages holds, in order, the
    traces of exactly the sweeps whose last 100 voltage samples (of the whole
    trace) are not all equal to zero; when no sweep is left the averager
    fails: [np.vstack] raises a [ValueError] on the empty stack (the spec's
    InsufficientDataError). *)
Theorem chirp_amp_phase_truncated_filter
    (sweep_set : SweepSet) (start end_ down_rate min_freq max_freq : float) :
  let kept :=
    filter (fun s => negb (np_all_zero (last_n 100 (Sweep.v s))))
           (sweeps sweep_set) in
  stack_sweeps (sweeps sweep_set) [] [] = (map Sweep.v kept, map Sweep.i kept)
  /\ (forall s, In s kept <->
                In s (sweeps sweep_set)
                /\ ~ (forall k x, (length (Sweep.v s) - 100 <= k)%nat ->
                                  nth_error (Sweep.v s) k = Some x ->
                                  (x =? 0)%float = true))
  /\ (kept = [] ->
      chirp_amp_phase sweep_set start end_ down_rate min_freq max_freq
      = Raise ValueError).
Proof.
  intros kept. split; [|split].
  - apply (stack_sweeps_filter (sweeps sweep_set) [] []).
  - intros s. unfold kept. rewrite filter_In, negb_true_iff.
    rewrite <- np_all_zero_last_n.
    destruct (np_all_zero (last_n 100 (Sweep.v s))); intuition congruence.
  - intros Hnone. unfold chirp_amp_phase.
    rewrite (stack_sweeps_filter (sweeps sweep_set) [] []); simpl.
    fold kept; rewrite Hnone. reflexivity.
Qed.

(** ** The per-specimen aggregator *)

Lemma raises_only_weaken {A} (P Q : exn -> Prop) (m : result A) :
  (forall e, P e -> Q e) -> raises_only P m -> raises_only Q m.
Proof. intros HPQ Hm e H; apply HPQ, Hm, H. Qed.

Lemma sweep_features_of_numeric amp phase freq :
  raises_only numeric_error (sweep_features_of amp phase freq).
Proof.
  unfold sweep_features_of.
  repeat (apply raises_only_bind; [solve [auto with raises] | intros]).
  auto with raises.
Qed.

(** Whatever [chirp_sweep_features] raises derives from [Exception]. *)
Lemma chirp_sweep_features_Exception sweep method_params :
  raises_only (fun e => is_Exception e = true)
              (chirp_sweep_features sweep method_params).
Proof.
  assert (Hw : forall A (m : result A), raises_only numeric_error m ->
                 raises_only (fun e => is_Exception e = true) m).
  { intros A m. apply raises_only_weaken. now intros e [_ H]. }
  unfold chirp_sweep_features, chirp_sweep_amp_phase.
  apply raises_only_bind.
  - apply raises_only_bind.
    + unfold transform_sweep.
      destruct (np_all_zero _).
      * now apply raises_only_Raise.
      * apply Hw, transform_traces_numeric.
    + intros [[v i] freq].
      repeat (apply raises_only_bind; [solve [apply Hw; auto with raises] | intros]).
      apply raises_only_Ok.
  - intros [[amp phase] freq]. apply Hw, sweep_features_of_numeric.
Qed.

Lemma sweep_features_of_names amp phase freq d :
  sweep_features_of amp phase freq = Ok d -> map fst d = feature_names.
Proof.
  unfold sweep_features_of. intros H.
  repeat (apply bind_Ok_inv in H as (? & _ & H)).
  inversion H; reflexivity.
Qed.

Lemma chirp_sweep_features_names sweep method_params d :
  chirp_sweep_features sweep method_params = Ok d -> map fst d = feature_names.
Proof.
  unfold chirp_sweep_features. intros H.
  apply bind_Ok_inv in H as ([[amp phase] freq] & _ & H).
  now apply sweep_features_of_names in H.
Qed.

Lemma successes_names method_params todo :
  Forall (fun d => map fst d = feature_names) (successes method_params todo).
Proof.
  unfold successes. apply Forall_forall. intros d Hd.
  apply in_flat_map in Hd as (sweep & _ & Hd).
  destruct (chirp_sweep_features sweep method_params) eqn:E; simpl in Hd.
  - destruct Hd as [<-|[]]. now apply chirp_sweep_features_names in E.
  - destruct Hd.
Qed.

(** The loop gathers the feature sets of the sweeps that succeed and steps
    over the others, with a log record for each. *)
Lemma sweep_loop_successes specimen_id method_params todo results lg :
  sweep_loop specimen_id method_params todo results lg
  = (Ok (results ++ successes method_params todo),
     lg ++ failures specimen_id method_params todo).
Proof.
  revert results lg; induction todo as [|sweep todo IH]; intros results lg; simpl.
  - now rewrite !app_nil_r.
  - pose proof (chirp_sweep_features_Exception sweep method_params) as Hexc.
    destruct (chirp_sweep_features sweep method_params) as [r|exc]; simpl.
    + rewrite IH, <- app_assoc. reflexivity.
    + rewrite (Hexc exc eq_refl).
      destruct (is_FeatureError exc); rewrite IH, <- app_assoc; reflexivity.
Qed.

Lemma lookup_In key (d : Features) :
  In key (map fst d) -> exists x, lookup key d = Ok x.
Proof.
  induction d as [|[k x] d IH]; simpl; [intros []|].
  intros H. destruct (String.eqb_spec k key) as [->|Hne]; [eauto|].
  destruct H as [H|H]; [contradiction | auto].
Qed.

Lemma column_Ok key (results : list Features) :
  Forall (fun d => In key (map fst d)) results ->
  exists xs, column key results = Ok xs /\ length xs = length results.
Proof.
  induction 1 as [|d results Hd _ (xs & IH & Hlen)]; simpl; [now exists []|].
  destruct (@lookup_In key d Hd) as [x ->]; simpl.
  rewrite IH; simpl. exists (x :: xs); simpl; auto.
Qed.

Lemma mean_over_Ok (keys : list string) (results : list Features) :
  (forall key, In key keys -> Forall (fun d => In key (map fst d)) results) ->
  exists d, mean_over keys results = Ok d
            /\ map fst d = keys
            /\ forall key, In key keys ->
                 exists xs, column key results = Ok xs
                            /\ length xs = length results
                            /\ lookup key d = Ok (np_mean xs).
Proof.
  induction keys as [|key keys IH]; intros Hkeys; simpl.
  - exists []; repeat split; intros key [].
  - destruct (@column_Ok key results (Hkeys key (or_introl eq_refl)))
      as (xs & Hxs & Hlen).
    destruct IH as (d & Hd & Hfst & Hall);
      [intros k Hk; apply Hkeys; now right|].
    rewrite Hxs, Hd; simpl. eexists; split; [reflexivity|]; simpl.
    split; [now rewrite Hfst|].
    intros k Hk. destruct (String.eqb_spec key k) as [<-|Hne]; [eauto|].
    destruct Hk as [Hk|Hk]; [contradiction | auto].
Qed.

Lemma extract_chirp_features_loaded specimen_id data_source method_params sweepset :
  data_source specimen_id = Ok sweepset ->
  exists lg,
    extract_chirp_features specimen_id data_source method_params
    = (match successes method_params (sweeps sweepset) with
       | [] => Ok []
       | res0 :: rest => mean_over (map fst res0) (res0 :: rest)
       end, lg).
Proof.
  intros Hload. unfold extract_chirp_features. rewrite Hload.
  rewrite (sweep_loop_successes specimen_id method_params
             (sweeps sweepset) [] []). simpl.
  destruct (successes method_params (sweeps sweepset)); eauto.
Qed.

Lemma mean_over_successes method_params todo res0 rest :
  successes method_params todo = res0 :: rest ->
  exists d, mean_over (map fst res0) (res0 :: rest) = Ok d
            /\ map fst d = feature_names
            /\ forall key, In key feature_names ->
                 exists xs, column key (res0 :: rest) = Ok xs
                            /\ length xs = length (res0 :: rest)
                            /\ lookup key d = Ok (np_mean xs).
Proof.
  intros Hs. pose proof (successes_names method_params todo) as Hnames.
  rewrite Hs in Hnames.
  assert (H0 : map fst res0 = feature_names) by now inversion Hnames.
  rewrite H0. apply mean_over_Ok.
  intros key Hkey. eapply Forall_impl; [|exact Hnames].
  intros d Hd; simpl in Hd. now rewrite Hd.
Qed.

(** C1.  [extract_chirp_features] returns a mapping for every specimen: an
    exception of the loading calls, whatever its class, gives the empty
    mapping; a sweep on which [chirp_sweep_features] raises is stepped over
    (and logged) and the loop goes on, so that the loop ends with the feature
    sets of the sweeps that succeeded; when there is none the mapping is
    empty. *)
Theorem extract_chirp_features_never_raises
    (specimen_id : Z) (data_source : Z -> result SweepSet)
    (method_params : MethodParams) :
  (exists d lg, extract_chirp_features specimen_id data_source method_params
                = (Ok d, lg))
  /\ (forall exc, data_source specimen_id = Raise exc ->
        extract_chirp_features specimen_id data_source method_params
        = (Ok [], [(WARNING, LoadFailed specimen_id exc)]))
  /\ (forall sweepset, data_source specimen_id = Ok sweepset ->
        sweep_loop specimen_id method_params (sweeps sweepset) [] []
        = (Ok (successes method_params (sweeps sweepset)),
           failures specimen_id method_params (sweeps sweepset))
        /\ (successes method_params (sweeps sweepset) = [] ->
            fst (extract_chirp_features specimen_id data_source method_params)
            = Ok [])).
Proof.
  split; [|split].
  - destruct (data_source specimen_id) as [sweepset|exc] eqn:Hload.
    + destruct (extract_chirp_features_loaded specimen_id data_source
                  method_params sweepset Hload) as [lg ->].
      destruct (successes method_params (sweeps sweepset)) as [|res0 rest] eqn:Hs;
        [eauto|].
      destruct (mean_over_successes _ _ _ _ Hs) as (d & -> & _). eauto.
    + unfold extract_chirp_features. rewrite Hload. eauto.
  - intros exc Hload. unfold extract_chirp_features. now rewrite Hload.
  - intros sweepset Hload. split.
    + apply (sweep_loop_successes specimen_id method_params (sweeps sweepset) [] []).
    + intros Hnone.
      destruct (extract_chirp_features_loaded specimen_id data_source
                  method_params sweepset Hload) as [lg ->].
      now rewrite Hnone.
Qed.

Lemma column_singleton key (res : Features) x :
  lookup key res = Ok x -> column key [res] = Ok [x].
Proof. intros H; simpl; now rewrite H. Qed.

Lemma features_eq_of_lookup (d res : Features) :
  NoDup (map fst res) ->
  map fst d = map fst res ->
  (forall key, In key (map fst res) ->
     exists x y, lookup key d = Ok x /\ lookup key res = Ok y /\ feq x y) ->
  features_eq d res.
Proof.
  revert d; induction res as [|[k y] res IH]; intros d Hnd Hfst Hall.
  - destruct d; [constructor | discriminate].
  - destruct d as [|[k' x] d]; [discriminate|].
    simpl in Hfst; inversion Hfst; subst k'.
    inversion Hnd as [|? ? Hk Hnd']; subst.
    constructor.
    + split; [reflexivity|]. simpl.
      destruct (Hall k (or_introl eq_refl)) as (x' & y' & Hx & Hy & Hxy).
      simpl in Hx, Hy. rewrite String.eqb_refl in Hx, Hy.
      inversion Hx; inversion Hy; subst; exact Hxy.
    + apply IH; [exact Hnd' | assumption |].
      intros key Hkey.
      destruct (Hall key (or_intror Hkey)) as (x' & y' & Hx & Hy & Hxy).
      simpl in Hx, Hy.
      destruct (String.eqb_spec k key) as [->|_]; [contradiction|].
      eauto.
Qed.

Lemma feature_names_NoDup : NoDup feature_names.
Proof.
  unfold feature_names.
  repeat (constructor; [simpl; intuition discriminate|]). constructor.
Qed.

(** C2.  When at least one sweep yields a feature set, the aggregator
    returns the 9 named features, each the [np.mean] of the column of its
    values over the sweeps that succeeded (in their order); when exactly one
    sweep succeeded, whatever happened to the others, its 9 features come
    back as they are: [np.mean] of a single value is that value, as float64
    values compare (numpy adds it to a zero and divides by 1, which changes
    at most the sign of a zero). *)
Theorem extract_chirp_features_mean
    (specimen_id : Z) (data_source : Z -> result SweepSet)
    (method_params : MethodParams) (sweepset : SweepSet) :
  data_source specimen_id = Ok sweepset ->
  successes method_params (sweeps sweepset) <> [] ->
  exists d lg,
    extract_chirp_features specimen_id data_source method_params = (Ok d, lg)
    /\ map fst d = feature_names
    /\ (forall key, In key feature_names ->
          exists xs,
            column key (successes method_params (sweeps sweepset)) = Ok xs
            /\ length xs = length (successes method_params (sweeps sweepset))
            /\ lookup key d = Ok (np_mean xs))
    /\ ((forall x, feq (np_mean [x]) x) ->
        forall res, successes method_params (sweeps sweepset) = [res] ->
                    features_eq d res).
Proof.
  intros Hload Hsome.
  destruct (extract_chirp_features_loaded specimen_id data_source
              method_params sweepset Hload) as [lg Hres].
  destruct (successes method_params (sweeps sweepset)) as [|res0 rest] eqn:Hs;
    [contradiction|].
  destruct (mean_over_successes _ _ _ _ Hs) as (d & Hd & Hfst & Hcols).
  rewrite Hd in Hres. exists d, lg. repeat split; try assumption.
  intros Hmean res Hone. inversion Hone; subst res0 rest.
  pose proof (successes_names method_params (sweeps sweepset)) as Hnames.
  rewrite Hs in Hnames. inversion Hnames as [|? ? Hres_names _]; subst.
  apply features_eq_of_lookup.
  - rewrite Hres_names. apply feature_names_NoDup.
  - congruence.
  - rewrite Hres_names. intros key Hkey.
    destruct (Hcols key Hkey) as (xs & Hxs & _ & Hlook).
    destruct (@lookup_In key res) as [y Hy]; [now rewrite Hres_names|].
    rewrite (column_singleton _ _ _ Hy) in Hxs. inversion Hxs; subst xs.
    exists (np_mean [y]), y. auto.
Qed.

End Pipeline.

(** ** The feature extractor *)

Lemma getitem_lt {A} (a : list A) (k : nat) :
  (k < length a)%nat -> exists x, nth_error a k = Some x /\ getitem a k = Ok x.
Proof.
  intros H. unfold getitem.
  destruct (nth_error a k) as [x|] eqn:E; [eauto|].
  apply nth_error_None in E. lia.
Qed.

Lemma getlast_nonempty {A} (a : list A) :
  a <> [] ->
  exists x, nth_error a (length a - 1) = Some x /\ getlast a = Ok x.
Proof.
  intros H. destruct a as [|x0 r]; [congruence|].
  unfold getlast. apply getitem_lt. simpl. lia.
Qed.

Lemma first_best_lt_length le lt a k : first_best le lt a k -> (k < length a)%nat.
Proof.
  intros (y & Hy & _). apply nth_error_Some. congruence.
Qed.

(** Without NaN the two orders are the plain ones. *)
Lemma max_le_plain x y : is_nan y = false -> max_le x y -> (x <=? y)%float = true.
Proof. intros Hy [H|H]; [congruence | exact H]. Qed.

Lemma max_lt_plain x y : is_nan y = false -> max_lt x y -> (x <? y)%float = true.
Proof. intros Hy [[_ H]|H]; [congruence | exact H]. Qed.

Lemma min_le_plain x y : is_nan y = false -> min_le x y -> (y <=? x)%float = true.
Proof. intros Hy [H|H]; [congruence | exact H]. Qed.

Lemma min_lt_plain x y : is_nan y = false -> min_lt x y -> (y <? x)%float = true.
Proof. intros Hy [[_ H]|H]; [congruence | exact H]. Qed.

(** C5.  On smoothed amplitude, phase and frequency arrays of one length
    (with a sample at least, as the smoothing stage leaves them) the feature
    extractor returns the 9 named features and no other: [i_max] is the first
    index of the greatest amplitude and gives [peak_freq], [z_peak] and
    [phase_peak]; [peak_ratio] is that amplitude divided by the first one;
    [i_cutoff] is the first index at which [|amp - z_peak / sqrt 2|] is least
    and gives [3db_freq]; the other four are the first and last samples of
    amplitude and phase.  "Greatest" and "least" are numpy's, which put NaN
    first; on arrays without NaN they are the plain orders. *)
Theorem sweep_features_of_spec (amp phase freq : list float) :
  length phase = length amp -> length freq = length amp -> amp <> [] ->
  exists i_max i_cutoff z_max a_0 a_last f_max f_cutoff p_max p_0 p_last,
    let dist := map (fun a => abs (a - z_max / sqrt 2)%float) amp in
    first_best max_le max_lt amp i_max
    /\ first_best min_le min_lt dist i_cutoff
    /\ (is_nan z_max = false ->
        forall j x, nth_error amp j = Some x ->
          (x <=? z_max)%float = true
          /\ ((j < i_max)%nat -> (x <? z_max)%float = true))
    /\ (forall d, nth_error dist i_cutoff = Some d -> is_nan d = false ->
        forall j x, nth_error dist j = Some x ->
          (d <=? x)%float = true
          /\ ((j < i_cutoff)%nat -> (d <? x)%float = true))
    /\ nth_error amp i_max = Some z_max
    /\ nth_error amp 0 = Some a_0
    /\ nth_error amp (length amp - 1) = Some a_last
    /\ nth_error freq i_max = Some f_max
    /\ nth_error freq i_cutoff = Some f_cutoff
    /\ nth_error phase i_max = Some p_max
    /\ nth_error phase 0 = Some p_0
    /\ nth_error phase (length phase - 1) = Some p_last
    /\ sweep_features_of amp phase freq
       = Ok [("peak_ratio", (z_max / a_0)%float);
             ("peak_freq", f_max);
             ("3db_freq", f_cutoff);
             ("z_low", a_0);
             ("z_high", a_last);
             ("z_peak", z_max);
             ("phase_peak", p_max);
             ("phase_low", p_0);
             ("phase_high", p_last)]%string.
Proof.
  intros Hphase Hfreq Hne.
  destruct (np_argmax_first_best amp Hne) as (i_max & Hargmax & Hmax).
  pose proof (first_best_lt_length _ _ _ _ Hmax) as Hi_max.
  destruct (getitem_lt amp i_max Hi_max) as (z_max & Hz & Hgz).
  set (dist := map (fun a => abs (a - z_max / sqrt 2)%float) amp).
  assert (Hdist : dist <> []) by (destruct amp; [congruence | discriminate]).
  destruct (np_argmin_first_best dist Hdist) as (i_cutoff & Hargmin & Hmin).
  pose proof (first_best_lt_length _ _ _ _ Hmin) as Hi_cut.
  unfold dist in Hi_cut; rewrite length_map in Hi_cut.
  assert (H0 : (0 < length amp)%nat) by (destruct amp; [congruence | simpl; lia]).
  destruct (getitem_lt amp 0 H0) as (a_0 & Ha0 & Hga0).
  destruct (getlast_nonempty amp Hne) as (a_last & Hal & Hgal).
  destruct (getitem_lt freq i_max) as (f_max & Hfm & Hgfm); [lia|].
  destruct (getitem_lt freq i_cutoff) as (f_cut & Hfc & Hgfc); [lia|].
  destruct (getitem_lt phase i_max) as (p_max & Hpm & Hgpm); [lia|].
  destruct (getitem_lt phase 0) as (p_0 & Hp0 & Hgp0); [lia|].
  destruct (getlast_nonempty phase) as (p_last & Hpl & Hgpl);
    [destruct phase; [simpl in Hphase; lia | discriminate]|].
  exists i_max, i_cutoff, z_max, a_0, a_last, f_max, f_cut, p_max, p_0, p_last.
  cbv zeta. fold dist.
  split; [exact Hmax|]. split; [exact Hmin|].
  split.
  { intros Hnan j x Hx. destruct Hmax as (y & Hy & Hall & Hfirst).
    assert (y = z_max) by congruence; subst y.
    split; [eapply max_le_plain, Hall; eauto|].
    intros Hj. eapply max_lt_plain, Hfirst; eauto. }
  split.
  { intros d Hd Hnan j x Hx. destruct Hmin as (y & Hy & Hall & Hfirst).
    assert (y = d) by congruence; subst y.
    split; [eapply min_le_plain, Hall; eauto|].
    intros Hj. eapply min_lt_plain, Hfirst; eauto. }
  repeat (split; [assumption|]).
  unfold sweep_features_of.
  rewrite Hargmax; cbn [bind]. rewrite Hgz; cbn [bind].
  fold dist. rewrite Hargmin; cbn [bind].
  rewrite ?Hga0, ?Hgfm, ?Hgfc, ?Hgal, ?Hgpm, ?Hgp0, ?Hgpl; cbn [bind].
  reflexivity.
Qed.

(** ** The band restriction *)

Lemma band_slice_half_open {A B} (a : list A) (b : list B) xf min_freq max_freq out :
  (length xf <= length a)%nat -> (length xf <= length b)%nat ->
  band_slice a b xf min_freq max_freq = Ok out ->
  half_open_band a b xf min_freq max_freq out.
Proof.
  intros Ha Hb H. unfold band_slice in H.
  apply bind_Ok_inv in H as (low & Hlow & H).
  apply bind_Ok_inv in H as (high & Hhigh & H).
  inversion H; subst out; clear H.
  pose proof (find_time_index_bound _ _ _ Hlow) as Bl.
  pose proof (find_time_index_bound _ _ _ Hhigh) as Bh.
  exists low, high. simpl.
  repeat (split; [first [assumption | apply slice_length; lia]|]).
  intros k Hk. now rewrite !slice_nth_error.
Qed.

Lemma select_epoch_stim_wf (s : Sweep) :
  Sweep.wf s -> Sweep.wf (Sweep.select_epoch_stim s).
Proof.
  unfold Sweep.wf, Sweep.select_epoch_stim. intros [Hv Hi].
  destruct (Sweep.stim s) as [a b]; simpl.
  unfold slice. rewrite !length_firstn, !length_skipn. lia.
Qed.

Lemma np_pad_length a pad y :
  np_pad a pad = Ok y -> length y = (Z.to_nat pad + length a)%nat.
Proof.
  unfold np_pad, np_pad_left_nan. destruct (pad <? 0)%Z; [discriminate|].
  intros H; inversion H; subst. now rewrite length_app, repeat_length.
Qed.

Section Band.

Context {L : NumLib}.

(** The contract of the FFT that the alignment rests on: as many bins as
    samples. *)
Hypothesis fft_length : forall x, length (fft x) = length x.

Lemma fftpack_fft_length x y : fftpack_fft x = Ok y -> length y = length x.
Proof.
  unfold fftpack_fft. destruct x; [discriminate|].
  intros H; inversion H; subst. apply fft_length.
Qed.

Lemma transform_traces_half_open v i t n_sample min_freq max_freq out :
  length i = length v ->
  transform_traces v i t n_sample min_freq max_freq = Ok out ->
  exists width pad v' i' f_nyq,
    _subsample_average (np_pad_left_nan pad v) width = Ok v'
    /\ _subsample_average (np_pad_left_nan pad i) width = Ok i'
    /\ length i' = length v'
    /\ half_open_band (fft v') (fft i')
         (np_linspace 0 f_nyq (length v' / 2)) min_freq max_freq out.
Proof.
  intros Hlen H. unfold transform_traces in H.
  apply bind_Ok_inv in H as (width & _ & H).
  apply bind_Ok_inv in H as (c & _ & H).
  apply bind_Ok_inv in H as (pv & Hpv & H).
  apply bind_Ok_inv in H as (v' & Hv' & H).
  apply bind_Ok_inv in H as (pi & Hpi & H).
  apply bind_Ok_inv in H as (i' & Hi' & H).
  apply bind_Ok_inv in H as (t1 & _ & H).
  apply bind_Ok_inv in H as (t0 & _ & H).
  apply bind_Ok_inv in H as (v_fft & Hvf & H).
  apply bind_Ok_inv in H as (i_fft & Hif & H).
  pose proof (np_pad_length _ _ _ Hpv) as Lpv.
  pose proof (np_pad_length _ _ _ Hpi) as Lpi.
  destruct (_subsample_average_length _ _ _ Hv') as [_ Lv'].
  destruct (_subsample_average_length _ _ _ Hi') as [_ Li'].
  pose proof (fftpack_fft_length _ _ Hvf) as Lvf.
  pose proof (fftpack_fft_length _ _ Hif) as Lif.
  assert (Hsame : length i' = length v') by (rewrite Lv', Li', Lpv, Lpi, Hlen; reflexivity).
  unfold np_pad in Hpv, Hpi.
  destruct (width * c - Z.of_nat (length v) <? 0)%Z; [discriminate|].
  inversion Hpv; inversion Hpi; subst pv pi.
  exists width, (Z.to_nat (width * c - Z.of_nat (length v))), v', i',
         (1 / (2 * (t1 - t0)))%float.
  repeat (split; [assumption|]).
  assert (Ev : v_fft = fft v')
    by (unfold fftpack_fft in Hvf; destruct v'; [discriminate | congruence]).
  assert (Ei : i_fft = fft i')
    by (unfold fftpack_fft in Hif; destruct i'; [discriminate | congruence]).
  subst v_fft i_fft.
  apply band_slice_half_open; [| |exact H];
    rewrite np_linspace_length, fft_length;
    [|rewrite Hsame]; apply Nat.Div0.div_le_upper_bound; lia.
Qed.

Lemma downsample_lengths avg_v avg_i t down_rate ds_v ds_i ds_t :
  length avg_i = length avg_v ->
  downsample avg_v avg_i t down_rate = Ok (ds_v, ds_i, ds_t) ->
  length ds_i = length ds_v.
Proof.
  intros Hlen H. unfold downsample in H.
  apply bind_Ok_inv in H as (t1 & _ & H).
  apply bind_Ok_inv in H as (t0 & _ & H).
  destruct (down_rate <? _)%float.
  - apply bind_Ok_inv in H as (width & _ & H).
    apply bind_Ok_inv in H as (v' & Hv' & H).
    apply bind_Ok_inv in H as (i' & Hi' & H).
    inversion H; subst.
    destruct (_subsample_average_length _ _ _ Hv') as [_ ->].
    destruct (_subsample_average_length _ _ _ Hi') as [_ ->].
    now rewrite Hlen.
  - inversion H; subst. exact Hlen.
Qed.

Lemma chirp_amp_phase_half_open
    sweep_set start end_ down_rate min_freq max_freq out :
  Forall Sweep.wf (sweeps sweep_set) ->
  chirp_amp_phase sweep_set start end_ down_rate min_freq max_freq = Ok out ->
  exists (wv wi : list float) (Z : list complex) (q : list float) (f_nyq : float),
    length wi = length wv
    /\ np_broadcast c_div (fft wv) (fft wi) = Ok Z
    /\ np_broadcast PrimFloat.div (map im Z) (map re Z) = Ok q
    /\ length Z = length wv /\ length q = length wv
    /\ half_open_band (firstn (length wv / 2) (map c_abs Z))
         (firstn (length wv / 2) (map f_arctan q))
         (np_linspace 0 f_nyq (length wv / 2)) min_freq max_freq out.
Proof.
  intros Hwf H. unfold chirp_amp_phase in H.
  rewrite (stack_sweeps_filter (sweeps sweep_set) [] []) in H. simpl in H.
  set (kept := filter _ (sweeps sweep_set)) in H.
  apply bind_Ok_inv in H as (avg_v & Hav & H).
  apply bind_Ok_inv in H as (avg_i & Hai & H).
  apply bind_Ok_inv in H as (swp0 & _ & H).
  apply bind_Ok_inv in H as ([[ds_v ds_i] ds_t] & Hds & H).
  apply bind_Ok_inv in H as (start_index & _ & H).
  apply bind_Ok_inv in H as (end_index & _ & H).
  apply bind_Ok_inv in H as (t1 & _ & H).
  apply bind_Ok_inv in H as (t0 & _ & H).
  apply bind_Ok_inv in H as (v_fft & Hvf & H).
  apply bind_Ok_inv in H as (i_fft & Hif & H).
  apply bind_Ok_inv in H as (Z & HZ & H).
  apply bind_Ok_inv in H as (q & Hq & H).
  assert (Havg : length avg_i = length avg_v).
  { destruct (np_vstack_mean_length _ _ Hav) as (v0 & vrest & Ev & Lv).
    destruct (np_vstack_mean_length _ _ Hai) as (i0 & irest & Ei & Li).
    destruct kept as [|s0 krest] eqn:Ek; [discriminate|].
    simpl in Ev, Ei. inversion Ev; inversion Ei; subst v0 i0.
    assert (Hin : In s0 (sweeps sweep_set)).
    { assert (Hk : In s0 kept) by (rewrite Ek; now left).
      unfold kept in Hk. now apply filter_In in Hk. }
    rewrite Forall_forall in Hwf. destruct (Hwf s0 Hin) as [Hv Hi].
    congruence. }
  pose proof (downsample_lengths _ _ _ _ _ _ _ Havg Hds) as Hdsl.
  set (wv := slice start_index end_index ds_v) in *.
  set (wi := slice start_index end_index ds_i) in *.
  assert (Hw : length wi = length wv).
  { unfold wi, wv, slice. rewrite !length_firstn, !length_skipn. lia. }
  pose proof (fftpack_fft_length _ _ Hvf) as Lvf.
  pose proof (fftpack_fft_length _ _ Hif) as Lif.
  assert (Ev : v_fft = fft wv)
    by (unfold fftpack_fft in Hvf; destruct wv; [discriminate | congruence]).
  assert (Ei : i_fft = fft wi)
    by (unfold fftpack_fft in Hif; destruct wi; [discriminate | congruence]).
  subst v_fft i_fft.
  assert (LZ : length Z = length wv).
  { rewrite (np_broadcast_length _ _ _ _ (eq_trans Lvf (eq_trans (eq_sym Hw) (eq_sym Lif))) HZ).
    exact Lvf. }
  assert (Lq : length q = length wv).
  { rewrite (np_broadcast_length _ _ _ _ (eq_trans (length_map _ _) (eq_sym (length_map _ _))) Hq).
    now rewrite length_map. }
  exists wv, wi, Z, q, (1 / (2 * (t1 - t0)))%float.
  repeat (split; [assumption|]).
  apply band_slice_half_open; [| |exact H];
    rewrite np_linspace_length, length_firstn, length_map;
    [rewrite LZ|rewrite Lq];
    (assert (length wv / 2 <= length wv)%nat
       by (apply Nat.Div0.div_le_upper_bound; lia)); lia.
Qed.

(** C6, amended.  The arrays that both transforms return are index-aligned
    and hold the bins from the index located for [min_freq], included, to the
    index located for [max_freq], excluded: item [k] of each output is item
    [low + k] of the spectrum (or frequency axis) it is cut from, for
    [k < high - low], and there are [high - low] items.  The sample located
    for [max_freq] is the first one left out. *)
Theorem band_is_half_open :
  (forall sweep n_sample min_freq max_freq out,
     Sweep.wf sweep ->
     transform_sweep sweep n_sample min_freq max_freq = Ok out ->
     exists width pad v' i' f_nyq,
       _subsample_average
         (np_pad_left_nan pad (Sweep.v (Sweep.select_epoch_stim sweep))) width
       = Ok v'
       /\ _subsample_average
            (np_pad_left_nan pad (Sweep.i (Sweep.select_epoch_stim sweep))) width
          = Ok i'
       /\ length i' = length v'
       /\ half_open_band (fft v') (fft i')
            (np_linspace 0 f_nyq (length v' / 2)) min_freq max_freq out)
  /\ (forall sweep_set start end_ down_rate min_freq max_freq out,
        Forall Sweep.wf (sweeps sweep_set) ->
        chirp_amp_phase sweep_set start end_ down_rate min_freq max_freq = Ok out ->
        exists (wv wi : list float) (Z : list complex) (q : list float)
               (f_nyq : float),
          length wi = length wv
          /\ np_broadcast c_div (fft wv) (fft wi) = Ok Z
          /\ np_broadcast PrimFloat.div (map im Z) (map re Z) = Ok q
          /\ length Z = length wv /\ length q = length wv
          /\ half_open_band (firstn (length wv / 2) (map c_abs Z))
               (firstn (length wv / 2) (map f_arctan q))
               (np_linspace 0 f_nyq (length wv / 2)) min_freq max_freq out).
Proof.
  split.
  - intros sweep n_sample min_freq max_freq out Hwf H.
    unfold transform_sweep in H.
    destruct (np_all_zero _); [discriminate|].
    apply select_epoch_stim_wf in Hwf. destruct Hwf as [Hv Hi].
    apply transform_traces_half_open in H; [exact H | congruence].
  - intros. eapply chirp_amp_phase_half_open; eauto.
Qed.


End Band.

(** ** The decimation width *)

(** [int(x)] truncates toward zero. *)
Lemma py_int_truncation (x : float) (n : Z) :
  F64.py_int x = Ok n -> is_truncation (Prim2SF x) n.
Proof.
  unfold F64.py_int, is_truncation.
  destruct (Prim2SF x) as [s|s| |s m e]; try discriminate.
  - now intros H; inversion H.
  - intros H; inversion H; subst n; clear H.
    destruct (Z.leb_spec 0 e) as [He|He].
    + rewrite Z.shiftl_mul_pow2 by lia.
      rewrite (Z.max_r 0 e), (Z.max_l 0 (- e)) by lia.
      assert (0 < 2 ^ e)%Z by (apply Z.pow_pos_nonneg; lia).
      destruct s; split; try lia; rewrite ?Z.abs_opp, Z.abs_eq; nia.
    + rewrite Z.shiftr_div_pow2 by lia.
      rewrite (Z.max_l 0 e), (Z.max_r 0 (- e)) by lia.
      assert (Hp : (0 < 2 ^ (- e))%Z) by (apply Z.pow_pos_nonneg; lia).
      pose proof (Z.div_pos (Zpos m) (2 ^ (- e)) ltac:(lia) Hp) as Hq.
      pose proof (Z.mul_div_le (Zpos m) (2 ^ (- e)) Hp) as Hlo.
      pose proof (Z.mul_succ_div_gt (Zpos m) (2 ^ (- e)) Hp) as Hhi.
      destruct s; split; try lia; rewrite ?Z.abs_opp, Z.abs_eq by lia; lia.
Qed.

(** C7, amended.  The averager downsamples exactly when the current rate,
    [rint(1 / (t[1] - t[0]))], exceeds the target rate; the decimation width
    is then [int(current_rate / down_rate)], the quotient truncated toward
    zero (not rounded); both averaged traces go through the Resampler with
    that width, which leaves floor(len / width) samples, and the time base
    keeps its samples at the multiples of the width.  Otherwise the three
    arrays pass through unchanged. *)
Theorem downsample_width_truncated
    (avg_v avg_i t : list float) (t0 t1 down_rate : float) :
  nth_error t 0 = Some t0 -> nth_error t 1 = Some t1 ->
  let current_rate := F64.rint (1 / (t1 - t0))%float in
  ((down_rate <? current_rate)%float = false ->
     downsample avg_v avg_i t down_rate = Ok (avg_v, avg_i, t))
  /\ ((down_rate <? current_rate)%float = true ->
      forall width,
        F64.py_int (current_rate / down_rate)%float = Ok width ->
        is_truncation (Prim2SF (current_rate / down_rate)%float) width
        /\ ((1 <= width)%Z ->
            exists ds_v ds_i,
              downsample avg_v avg_i t down_rate
              = Ok (ds_v, ds_i, stride (Z.to_nat width) t)
              /\ _subsample_average avg_v width = Ok ds_v
              /\ _subsample_average avg_i width = Ok ds_i
              /\ length ds_v = (length avg_v / Z.to_nat width)%nat
              /\ length ds_i = (length avg_i / Z.to_nat width)%nat
              /\ forall j, nth_error (stride (Z.to_nat width) t) j
                           = nth_error t (j * Z.to_nat width))).
Proof.
  intros H0 H1 current_rate. unfold downsample, getitem.
  rewrite H0, H1; cbn [bind]. fold current_rate. split.
  - intros ->. reflexivity.
  - intros -> width Hw. split; [now apply py_int_truncation|].
    intros Hpos. rewrite Hw; cbn [bind].
    unfold _subsample_average. destruct (Z.ltb_spec width 1) as [Hlt|_]; [lia|].
    cbn [bind]. eexists; eexists. split; [reflexivity|].
    repeat (split; [reflexivity|]).
    split; [|split].
    + now rewrite subsample_blocks_length by (simpl; lia).
    + now rewrite subsample_blocks_length by (simpl; lia).
    + intros j. apply stride_nth_error. lia.
Qed.

(** ** The smoothing stage *)

Section Smoothing.

Context {L : NumLib}.

Hypothesis fft_length : forall x, length (fft x) = length x.

Lemma transform_sweep_aligned sweep n_sample min_freq max_freq v i freq :
  Sweep.wf sweep ->
  transform_sweep sweep n_sample min_freq max_freq = Ok (v, i, freq) ->
  length i = length v /\ length freq = length v.
Proof.
  intros Hwf H. unfold transform_sweep in H.
  destruct (np_all_zero _); [discriminate|].
  apply select_epoch_stim_wf in Hwf. destruct Hwf as [Hv Hi].
  apply (transform_traces_half_open fft_length) in H; [|congruence].
  destruct H as (_ & _ & _ & _ & _ & _ & _ & _ & low & high & _ & _ & _ & _ & Ha & Hb & Hc & _).
  simpl in Ha, Hb, Hc. lia.
Qed.

(** C9.  On the spectra [v], [i] and the frequency axis [freq] that
    [transform_sweep] returns, [chirp_sweep_amp_phase] forms the quotient
    [Z] of [v] by [i] bin by bin, takes [amp = |Z|] and [phase = angle(Z)]
    ([np.angle], where the averager takes [np.arctan] of [imag / real]), and
    passes each of the two through [savgol_filter] with the polynomial order
    5 and the window [k * 2 + 1], an odd number, [k] being
    [1 / (freq[1] - freq[0])] rounded to the nearest integer; [freq] is
    returned as it is. *)
Theorem chirp_sweep_amp_phase_spec
    (sweep : Sweep) (method_params : MethodParams)
    (v i : list complex) (freq : list float) (f0 f1 : float) (k : Z) :
  Sweep.wf sweep ->
  transform_sweep sweep (n_sample method_params) (min_freq method_params)
    (max_freq method_params) = Ok (v, i, freq) ->
  nth_error freq 0 = Some f0 -> nth_error freq 1 = Some f1 ->
  F64.py_int (F64.rint (1 / (f1 - f0))%float) = Ok k ->
  let Z := map (fun p => c_div (fst p) (snd p)) (combine v i) in
  let n_filt := (k * 2 + 1)%Z in
  length Z = length freq
  /\ (forall j a b, nth_error v j = Some a -> nth_error i j = Some b ->
                    nth_error Z j = Some (c_div a b))
  /\ Z.odd n_filt = true
  /\ chirp_sweep_amp_phase sweep method_params
     = (amp <- savgol_filter (map c_abs Z) n_filt 5 ;;
        phase <- savgol_filter (map c_angle Z) n_filt 5 ;;
        Ok (amp, phase, freq))
  /\ (forall amp phase,
        savgol (map c_abs Z) n_filt 5 = Some amp ->
        savgol (map c_angle Z) n_filt 5 = Some phase ->
        chirp_sweep_amp_phase sweep method_params = Ok (amp, phase, freq)).
Proof.
  intros Hwf Ht Hf0 Hf1 Hk Z n_filt.
  destruct (transform_sweep_aligned _ _ _ _ _ _ _ Hwf Ht) as [Hi Hfreq].
  assert (Hmain :
    chirp_sweep_amp_phase sweep method_params
    = (amp <- savgol_filter (map c_abs Z) n_filt 5 ;;
       phase <- savgol_filter (map c_angle Z) n_filt 5 ;;
       Ok (amp, phase, freq))).
  { unfold chirp_sweep_amp_phase. rewrite Ht; cbn [bind].
    unfold np_broadcast. rewrite <- Hi, Nat.eqb_refl; cbn [bind].
    unfold getitem. rewrite Hf1, Hf0; cbn [bind]. rewrite Hk; cbn [bind].
    reflexivity. }
  split; [|split; [|split; [|split]]].
  - unfold Z. rewrite length_map, length_combine. lia.
  - intros j a b Ha Hb. unfold Z.
    rewrite nth_error_map.
    assert (Hc : nth_error (combine v i) j = Some (a, b)).
    { clear - Ha Hb. revert i j Ha Hb.
      induction v as [|x v IH]; intros [|y i] [|j] Ha Hb; simpl in *;
        try discriminate.
      - congruence.
      - now apply IH. }
    now rewrite Hc.
  - unfold n_filt. rewrite Z.add_comm, Z.mul_comm. apply Z.odd_add_mul_2.
  - exact Hmain.
  - intros amp phase Hamp Hphase. rewrite Hmain.
    unfold savgol_filter. now rewrite Hamp, Hphase.
Qed.

(** The contract of the smoothing filter: as many samples out as in. *)
Hypothesis savgol_length :
  forall x w p y, savgol x w p = Some y -> length y = length x.

(** The arrays that the smoothing stage hands to the feature extractor have
    one length, and two samples at least. *)
Lemma chirp_sweep_amp_phase_shape sweep method_params amp phase freq :
  Sweep.wf sweep ->
  chirp_sweep_amp_phase sweep method_params = Ok (amp, phase, freq) ->
  length amp = length freq /\ length phase = length freq
  /\ (2 <= length freq)%nat.
Proof.
  intros Hwf H. unfold chirp_sweep_amp_phase in H.
  apply bind_Ok_inv in H as ([[v i] freq'] & Ht & H).
  destruct (transform_sweep_aligned _ _ _ _ _ _ _ Hwf Ht) as [Hi Hfreq].
  apply bind_Ok_inv in H as (Z & HZ & H).
  apply bind_Ok_inv in H as (f1 & Hf1 & H).
  apply bind_Ok_inv in H as (f0 & _ & H).
  apply bind_Ok_inv in H as (k & _ & H).
  apply bind_Ok_inv in H as (amp' & Hamp & H).
  apply bind_Ok_inv in H as (phase' & Hphase & H).
  inversion H; subst amp' phase' freq'; clear H.
  pose proof (np_broadcast_length _ _ _ _ (eq_sym Hi) HZ) as LZ.
  unfold savgol_filter in Hamp, Hphase.
  destruct (savgol (map c_abs Z) _ _) as [y|] eqn:Ea; [|discriminate].
  destruct (savgol (map c_angle Z) _ _) as [y'|] eqn:Ep; [|discriminate].
  inversion Hamp; inversion Hphase; subst y y'.
  apply savgol_length in Ea, Ep. rewrite length_map in Ea, Ep.
  unfold getitem in Hf1.
  destruct (nth_error freq 1) eqn:E1; [|discriminate].
  assert (1 < length freq)%nat by (apply nth_error_Some; congruence).
  repeat split; lia.
Qed.

(** Hence [chirp_sweep_features] returns its 9 features whenever the
    smoothing stage returns. *)
Lemma chirp_sweep_features_returns sweep method_params amp phase freq :
  Sweep.wf sweep ->
  chirp_sweep_amp_phase sweep method_params = Ok (amp, phase, freq) ->
  exists d, chirp_sweep_features sweep method_params = Ok d
            /\ sweep_features_of amp phase freq = Ok d
            /\ map fst d = feature_names.
Proof.
  intros Hwf H.
  destruct (chirp_sweep_amp_phase_shape _ _ _ _ _ Hwf H) as (Ha & Hp & H2).
  unfold chirp_sweep_features. rewrite H; cbn [bind].
  assert (Hne : amp <> []) by (destruct amp; [simpl in Ha; lia | discriminate]).
  destruct (np_argmax_first_best amp Hne) as (i_max & Hargmax & Hmax).
  pose proof (first_best_lt_length _ _ _ _ Hmax) as Hi_max.
  destruct (sweep_features_of amp phase freq) as [d|e] eqn:E.
  - exists d. repeat split. now apply sweep_features_of_names in E.
  - exfalso. unfold sweep_features_of in E.
    rewrite Hargmax in E; cbn [bind] in E.
    destruct (getitem_lt amp i_max Hi_max) as (z_max & _ & Hgz).
    rewrite Hgz in E; cbn [bind] in E.
    set (dist := map (fun a => abs (a - z_max / sqrt 2)%float) amp) in E.
    assert (Hdist : dist <> []) by (destruct amp; [congruence | discriminate]).
    destruct (np_argmin_first_best dist Hdist) as (i_cutoff & Hargmin & Hmin).
    pose proof (first_best_lt_length _ _ _ _ Hmin) as Hi_cut.
    unfold dist in Hi_cut; rewrite length_map in Hi_cut.
    rewrite Hargmin in E; cbn [bind] in E.
    destruct (getitem_lt amp 0 ltac:(lia)) as (a_0 & _ & Hga0).
    destruct (getlast_nonempty amp Hne) as (a_last & _ & Hgal).
    destruct (getitem_lt freq i_max ltac:(lia)) as (f_max & _ & Hgfm).
    destruct (getitem_lt freq i_cutoff ltac:(lia)) as (f_cut & _ & Hgfc).
    destruct (getitem_lt phase i_max ltac:(lia)) as (p_max & _ & Hgpm).
    destruct (getitem_lt phase 0 ltac:(lia)) as (p_0 & _ & Hgp0).
    destruct (getlast_nonempty phase) as (p_last & _ & Hgpl);
      [destruct phase; [simpl in Hp; lia | discriminate]|].
    rewrite ?Hga0, ?Hgfm, ?Hgfc, ?Hgal, ?Hgpm, ?Hgp0, ?Hgpl in E; cbn [bind] in E.
    discriminate.
Qed.

End Smoothing.

(** ** NaN in the smoothed amplitude *)

Lemma is_nan_div_l (x y : float) : is_nan x = true -> is_nan (x / y)%float = true.
Proof.
  rewrite !is_nan_Prim2SF, div_spec. intros ->. reflexivity.
Qed.

Lemma is_nan_sub_r (x y : float) : is_nan y = true -> is_nan (x - y)%float = true.
Proof.
  rewrite !is_nan_Prim2SF, sub_spec. intros ->.
  unfold SF64sub, SFsub. now destruct (Prim2SF x).
Qed.

Lemma is_nan_abs (x : float) : is_nan x = true -> is_nan (abs x) = true.
Proof.
  rewrite !is_nan_Prim2SF, abs_spec. intros ->. reflexivity.
Qed.

(** In an array that holds a NaN, [np.argmax] is the index of the first
    one. *)
Lemma np_argmax_first_nan_index (a : list float) (n : nat) (x : float) :
  nth_error a n = Some x -> is_nan x = true ->
  (forall j y, (j < n)%nat -> nth_error a j = Some y -> is_nan y = false) ->
  np_argmax a = Ok n.
Proof.
  intros Hn Hx Hbefore.
  assert (Hne : a <> []) by (intros ->; destruct n; discriminate).
  destruct (np_argmax_first_best a Hne) as (k & -> & y & Hy & Hle & Hlt).
  f_equal.
  assert (Hynan : is_nan y = true).
  { destruct (Hle n x Hn) as [H|H]; [exact H|].
    rewrite leb_nan_l in H by exact Hx. discriminate. }
  destruct (Nat.lt_trichotomy k n) as [H|[H|H]]; [|exact H|].
  - rewrite (Hbefore k y H Hy) in Hynan. discriminate.
  - destruct (Hlt n x H Hn) as [[H' _]|H']; [congruence|].
    rewrite ltb_nan_l in H' by exact Hx. discriminate.
Qed.

(** When the smoothed amplitude holds a NaN, the feature extractor still
    returns its 9 features, read at the first NaN: [z_peak] and [peak_ratio]
    are NaN, [peak_freq] and [phase_peak] are the frequency and the phase at
    the index of the first NaN, and, every distance to [z_peak / sqrt 2]
    being NaN, [3db_freq] is the first frequency of the band. *)
Theorem sweep_features_of_nan
    (amp phase freq : list float) (n : nat) (x : float) :
  length phase = length amp -> length freq = length amp ->
  nth_error amp n = Some x -> is_nan x = true ->
  (forall j y, (j < n)%nat -> nth_error amp j = Some y -> is_nan y = false) ->
  exists d z r,
    sweep_features_of amp phase freq = Ok d
    /\ lookup "z_peak" d = Ok z /\ is_nan z = true
    /\ lookup "peak_ratio" d = Ok r /\ is_nan r = true
    /\ lookup "peak_freq" d = getitem freq n
    /\ lookup "phase_peak" d = getitem phase n
    /\ lookup "3db_freq" d = getitem freq 0.
Proof.
  intros Hp Hf Hn Hx Hbefore.
  assert (Hlen : (n < length amp)%nat) by (apply nth_error_Some; congruence).
  assert (Hne : amp <> []) by (intros ->; simpl in Hlen; lia).
  unfold sweep_features_of.
  rewrite (np_argmax_first_nan_index amp n x Hn Hx Hbefore); cbn [bind].
  unfold getitem at 1. rewrite Hn; cbn [bind].
  assert (Hcut : np_argmin (map (fun a => abs (a - x / sqrt 2)%float) amp)
                 = Ok 0%nat).
  { destruct amp as [|a0 r]; [congruence|]. simpl.
    now rewrite is_nan_abs by (apply is_nan_sub_r, is_nan_div_l, Hx). }
  rewrite Hcut; cbn [bind].
  unfold getitem at 1. rewrite Hn; cbn [bind].
  destruct (getitem_lt amp 0 ltac:(lia)) as (a_0 & _ & Hga0).
  destruct (getlast_nonempty amp Hne) as (a_last & _ & Hgal).
  destruct (getitem_lt freq n ltac:(lia)) as (f_max & _ & Hgfm).
  destruct (getitem_lt freq 0 ltac:(lia)) as (f_0 & _ & Hgf0).
  destruct (getitem_lt phase n ltac:(lia)) as (p_max & _ & Hgpm).
  destruct (getitem_lt phase 0 ltac:(lia)) as (p_0 & _ & Hgp0).
  destruct (getlast_nonempty phase) as (p_last & _ & Hgpl);
    [destruct phase; [simpl in Hp; lia | discriminate]|].
  rewrite ?Hga0, ?Hgfm, ?Hgf0, ?Hgal, ?Hgpm, ?Hgp0, ?Hgpl; cbn [bind].
  eexists _, x, (x / a_0)%float. split; [reflexivity|].
  repeat split; try reflexivity; try assumption.
  now apply is_nan_div_l.
Qed.

(** ** The blocks of the single-sweep transform *)

(** [t[::w]] has ceil(len / w) items. *)
Lemma stride_from_length {A} (w : nat) (a : list A) :
  (1 <= w)%nat ->
  forall k, length (stride_from w k a) = ((length a - k + (w - 1)) / w)%nat.
Proof.
  intros Hw. induction a as [|x r IH]; intros k; simpl.
  - symmetry. apply Nat.div_small. lia.
  - destruct k as [|k']; simpl.
    + rewrite IH.
      replace (S (length r + (w - 1))) with (1 * w + length r)%nat by lia.
      rewrite Nat.div_add_l by lia.
      destruct (Nat.le_gt_cases (w - 1) (length r)) as [H|H].
      * replace (length r - (w - 1) + (w - 1))%nat with (length r) by lia. lia.
      * replace (length r - (w - 1) + (w - 1))%nat with (w - 1)%nat by lia.
        rewrite !Nat.div_small by lia. lia.
    + apply IH.
Qed.

Lemma stride_length {A} (w : nat) (a : list A) :
  (1 <= w)%nat -> length (stride w a) = ((length a + (w - 1)) / w)%nat.
Proof.
  intros Hw. unfold stride. rewrite stride_from_length by exact Hw.
  now rewrite Nat.sub_0_r.
Qed.

(** The block width, the number of blocks and the padding of an epoch of [N]
    samples, for [1 <= n_sample <= N]. *)
Lemma blocks_arith (N n_sample : Z) :
  (1 <= n_sample <= N)%Z ->
  let width := Z.quot N n_sample in
  let c := (- ((- N) / width))%Z in
  (1 <= width /\ 0 <= width * c - N < width
   /\ n_sample <= c <= 2 * n_sample - 1)%Z.
Proof.
  intros H width c.
  assert (Hq : width = (N / n_sample)%Z)
    by (unfold width; apply Z.quot_div_nonneg; lia).
  assert (Hw : (1 <= width)%Z).
  { rewrite Hq. apply Z.div_le_lower_bound; lia. }
  pose proof (Z.div_mod N n_sample ltac:(lia)) as Hdm.
  pose proof (Z.mod_pos_bound N n_sample ltac:(lia)) as Hmb.
  rewrite <- Hq in Hdm.
  pose proof (Z.div_mod (- N) width ltac:(lia)) as Hdm'.
  pose proof (Z.mod_pos_bound (- N) width ltac:(lia)) as Hmb'.
  assert (Hc : ((- N) / width = - c)%Z) by (unfold c; lia).
  rewrite Hc in Hdm'.
  repeat split; try lia; try nia.
Qed.

Section Blocks.

Context {L : NumLib}.

(** On an epoch of [N] samples with [1 <= n_sample <= N], the block width
    [int(N / n_sample)] is 1 at least and the padding
    [width * ceil(N / width) - N] lies in [0, width), so that [np.pad]
    accepts it and the padded traces are a whole number [c] of blocks: no
    sample is dropped by the Resampler.  [c] is at least [n_sample] and at
    most [2 * n_sample - 1], and the strided time base has [c] samples as
    well.  The transform goes on from the block means of the padded
    traces. *)
Theorem transform_traces_blocks (v i t : list float)
    (n_sample : Z) (min_freq max_freq : float) :
  let N := Z.of_nat (length v) in
  (1 <= n_sample <= N)%Z ->
  exists width c pad : Z,
    int_truediv N n_sample = Ok width
    /\ ceil_truediv N width = Ok c
    /\ pad = (width * c - N)%Z
    /\ (1 <= width)%Z /\ (0 <= pad < width)%Z
    /\ (n_sample <= c <= 2 * n_sample - 1)%Z
    /\ np_pad v pad = Ok (np_pad_left_nan (Z.to_nat pad) v)
    /\ Z.of_nat (length (np_pad_left_nan (Z.to_nat pad) v)) = (width * c)%Z
    /\ (length t = length v ->
        Z.of_nat (length (stride (Z.to_nat width) t)) = c)
    /\ transform_traces v i t n_sample min_freq max_freq
       = (v' <- _subsample_average (np_pad_left_nan (Z.to_nat pad) v) width ;;
          i' <- _subsample_average (np_pad_left_nan (Z.to_nat pad) i) width ;;
          spectra_of_resampled v' i' (stride (Z.to_nat width) t)
            min_freq max_freq).
Proof.
  intros N H.
  destruct (blocks_arith N n_sample H) as (Hw & Hpad & Hc).
  set (width := Z.quot N n_sample) in *.
  set (c := (- ((- N) / width))%Z) in *.
  exists width, c, (width * c - N)%Z.
  assert (Hi : int_truediv N n_sample = Ok width).
  { unfold int_truediv. destruct (Z.eqb_spec n_sample 0); [lia | reflexivity]. }
  assert (Hce : ceil_truediv N width = Ok c).
  { unfold ceil_truediv. destruct (Z.eqb_spec width 0); [lia | reflexivity]. }
  assert (Hp : forall a, np_pad a (width * c - N)
                         = Ok (np_pad_left_nan (Z.to_nat (width * c - N)) a)).
  { intros a. unfold np_pad.
    destruct (Z.ltb_spec (width * c - N) 0); [lia | reflexivity]. }
  split; [exact Hi|]. split; [exact Hce|]. split; [reflexivity|].
  split; [exact Hw|]. split; [exact Hpad|]. split; [exact Hc|].
  split; [apply Hp|]. split; [|split].
  - unfold np_pad_left_nan. rewrite length_app, repeat_length. subst N. lia.
  - intros Ht. rewrite stride_length by lia. rewrite Ht.
    rewrite Nat2Z.inj_div, Nat2Z.inj_add, Nat2Z.inj_sub by lia.
    rewrite Z2Nat.id by lia. fold N. simpl Z.of_nat.
    symmetry. apply Z.div_unique with (r := (width - 1 - (width * c - N))%Z); lia.
  - unfold transform_traces. fold N. rewrite Hi; cbn [bind].
    fold width. rewrite Hce; cbn [bind]. rewrite !Hp; cbn [bind].
    reflexivity.
Qed.

(** With [n_sample] 1 the only block is the whole epoch and the strided time
    base keeps one sample: [t[1]] is out of range. *)
Lemma transform_traces_one_block (v i t : list float) (min_freq max_freq : float) :
  v <> [] -> length t = length v ->
  transform_traces v i t 1 min_freq max_freq = Raise IndexError.
Proof.
  intros Hne Ht.
  set (N := Z.of_nat (length v)).
  assert (HN : (1 <= N)%Z) by (subst N; destruct v; [congruence | simpl; lia]).
  destruct (blocks_arith N 1 ltac:(lia)) as (Hw & Hpad & Hc).
  rewrite Z.quot_1_r in Hw, Hpad, Hc.
  set (c := (- ((- N) / N))%Z) in *.
  assert (Ec : c = 1%Z) by lia.
  unfold transform_traces. fold N. unfold int_truediv. simpl Z.eqb.
  cbn [bind]. rewrite Z.quot_1_r. unfold ceil_truediv.
  destruct (Z.eqb_spec N 0); [lia|]. cbn [bind]. fold c. rewrite Ec.
  replace (N * 1 - N)%Z with 0%Z by lia.
  unfold np_pad; simpl Z.ltb; cbn [bind].
  unfold _subsample_average. destruct (Z.ltb_spec N 1); [lia|]. cbn [bind].
  unfold getitem.
  destruct (nth_error (stride (Z.to_nat N) t) 1) eqn:E; [|reflexivity].
  assert (Hs : nth_error (stride (Z.to_nat N) t) 1 <> None) by congruence.
  apply nth_error_Some in Hs. rewrite stride_length in Hs by lia.
  rewrite Ht in Hs. unfold N in Hs. rewrite Nat2Z.id in Hs.
  assert (Hd : ((length v + (length v - 1)) / length v < 2)%nat).
  { apply Nat.Div0.div_lt_upper_bound. unfold N in HN. lia. }
  lia.
Qed.

(** With [n_sample] 0 or 1 the single-sweep transform never returns: an
    epoch that is not truncated gives a [ZeroDivisionError] for 0 (the width
    is the quotient by it) and an [IndexError] for 1 (the width is the whole
    epoch, the resampled time base has one sample and [t[1]] is read). *)
Theorem transform_sweep_n_sample_below_2
    (sweep : Sweep) (n_sample : Z) (min_freq max_freq : float) :
  Sweep.wf sweep -> (0 <= n_sample <= 1)%Z ->
  let epoch := Sweep.select_epoch_stim sweep in
  raises (transform_sweep sweep n_sample min_freq max_freq)
  /\ (np_all_zero (last_n 10 (Sweep.v epoch)) = false ->
      transform_sweep sweep n_sample min_freq max_freq
      = Raise (if (n_sample =? 0)%Z then ZeroDivisionError else IndexError)).
Proof.
  intros Hwf Hn epoch.
  assert (Hmain : np_all_zero (last_n 10 (Sweep.v epoch)) = false ->
            transform_sweep sweep n_sample min_freq max_freq
            = Raise (if (n_sample =? 0)%Z then ZeroDivisionError else IndexError)).
  { intros Hcheck. unfold transform_sweep; fold epoch. rewrite Hcheck.
    apply select_epoch_stim_wf in Hwf. fold epoch in Hwf. destruct Hwf as [Hv Hi].
    destruct (Z.eqb_spec n_sample 0) as [->|Hne]; [reflexivity|].
    assert (n_sample = 1%Z) by lia. subst n_sample.
    apply transform_traces_one_block; [|congruence].
    intros E. rewrite E in Hcheck. discriminate. }
  split; [|exact Hmain].
  destruct (np_all_zero (last_n 10 (Sweep.v epoch))) eqn:Hcheck.
  - unfold transform_sweep; fold epoch. rewrite Hcheck. eexists; reflexivity.
  - rewrite Hmain by reflexivity. eexists; reflexivity.
Qed.

End Blocks.

(** ** What the averager reads of a sweep set *)

Section AveragerInput.

Context {L : NumLib}.

Lemma chirp_amp_phase_unfold sweep_set start end_ down_rate min_freq max_freq :
  chirp_amp_phase sweep_set start end_ down_rate min_freq max_freq
  = (avg_v <- np_vstack_mean (map Sweep.v (kept_sweeps sweep_set)) ;;
     avg_i <- np_vstack_mean (map Sweep.i (kept_sweeps sweep_set)) ;;
     swp0 <- getitem (sweeps sweep_set) 0 ;;
     amp_phase_of_average avg_v avg_i (Sweep.t swp0)
       start end_ down_rate min_freq max_freq).
Proof.
  unfold chirp_amp_phase.
  rewrite (stack_sweeps_filter (sweeps sweep_set) [] []). reflexivity.
Qed.

(** [chirp_amp_phase] reads of a sweep set the voltage and current traces
    of the sweeps it keeps and the time base of the first sweep, kept or
    not: two sets that agree on these give the same result, so that sweeps
    with a truncated end (after the first sweep) can be added or removed
    freely, and the time base of a first sweep that is left out of the
    average is still the one in use. *)
Theorem chirp_amp_phase_kept_sweeps
    (sweep_set sweep_set' : SweepSet)
    (start end_ down_rate min_freq max_freq : float) :
  map Sweep.v (kept_sweeps sweep_set) = map Sweep.v (kept_sweeps sweep_set') ->
  map Sweep.i (kept_sweeps sweep_set) = map Sweep.i (kept_sweeps sweep_set') ->
  option_map Sweep.t (hd_error (sweeps sweep_set))
  = option_map Sweep.t (hd_error (sweeps sweep_set')) ->
  chirp_amp_phase sweep_set start end_ down_rate min_freq max_freq
  = chirp_amp_phase sweep_set' start end_ down_rate min_freq max_freq.
Proof.
  intros Hv Hi Ht. rewrite !chirp_amp_phase_unfold, Hv, Hi.
  destruct (np_vstack_mean _) as [avg_v|]; [|reflexivity]; cbn [bind].
  destruct (np_vstack_mean _) as [avg_i|]; [|reflexivity]; cbn [bind].
  unfold getitem.
  destruct (sweeps sweep_set) as [|s0 r], (sweeps sweep_set') as [|s0' r'];
    simpl in *; try discriminate; [reflexivity|].
  inversion Ht as [Ht']. now rewrite Ht'.
Qed.

Lemma np_vstack_mean_ragged (r0 : list float) (rest : list (list float)) r :
  In r rest -> length r <> length r0 ->
  np_vstack_mean (r0 :: rest) = Raise ValueError.
Proof.
  intros Hin Hlen. unfold np_vstack_mean.
  destruct (forallb _ rest) eqn:E; [|reflexivity].
  rewrite forallb_forall in E. specialize (E r Hin).
  apply Nat.eqb_eq in E. contradiction.
Qed.

(** Kept sweeps of different lengths cannot be averaged: when the voltage or
    the current trace of a kept sweep is not as long as that of the first
    kept sweep, [np.vstack] refuses the stack and [chirp_amp_phase] raises a
    [ValueError]. *)
Theorem chirp_amp_phase_ragged
    (sweep_set : SweepSet) (s0 s : Sweep) (rest : list Sweep)
    (start end_ down_rate min_freq max_freq : float) :
  kept_sweeps sweep_set = s0 :: rest -> In s rest ->
  length (Sweep.v s) <> length (Sweep.v s0)
  \/ length (Sweep.i s) <> length (Sweep.i s0) ->
  chirp_amp_phase sweep_set start end_ down_rate min_freq max_freq
  = Raise ValueError.
Proof.
  intros Hkept Hin Hlen. rewrite chirp_amp_phase_unfold, Hkept. simpl map.
  destruct (np_vstack_mean (Sweep.v s0 :: map Sweep.v rest)) as [avg_v|e] eqn:Ev.
  - cbn [bind]. destruct Hlen as [Hlen|Hlen].
    + rewrite (np_vstack_mean_ragged _ _ (Sweep.v s)) in Ev;
        [discriminate | now apply in_map | exact Hlen].
    + rewrite (np_vstack_mean_ragged _ _ (Sweep.i s));
        [reflexivity | now apply in_map | exact Hlen].
  - cbn [bind]. f_equal. unfold np_vstack_mean in Ev.
    destruct (forallb _ _); [discriminate | congruence].
Qed.

(** The mean of a stack of one row is the row, bit for bit: each sample is
    divided by 1. *)
Lemma np_vstack_mean_single (r0 : list float) : np_vstack_mean [r0] = Ok r0.
Proof.
  unfold np_vstack_mean. simpl. f_equal.
  change (F64.of_nat 1) with 1%float.
  induction r0 as [|x r IH]; simpl; [reflexivity|].
  now rewrite div_1_r, IH.
Qed.

(** When exactly one sweep of the set is kept, the averaging changes
    nothing: [chirp_amp_phase] returns what the rest of its body computes
    from the voltage and current traces of that sweep as they are, on the
    time base of the first sweep of the set. *)
Theorem chirp_amp_phase_single_sweep
    (sweep_set : SweepSet) (s s0 : Sweep)
    (start end_ down_rate min_freq max_freq : float) :
  kept_sweeps sweep_set = [s] -> hd_error (sweeps sweep_set) = Some s0 ->
  np_vstack_mean [Sweep.v s] = Ok (Sweep.v s)
  /\ np_vstack_mean [Sweep.i s] = Ok (Sweep.i s)
  /\ chirp_amp_phase sweep_set start end_ down_rate min_freq max_freq
     = amp_phase_of_average (Sweep.v s) (Sweep.i s) (Sweep.t s0)
         start end_ down_rate min_freq max_freq.
Proof.
  intros Hkept H0.
  split; [apply np_vstack_mean_single|]. split; [apply np_vstack_mean_single|].
  rewrite chirp_amp_phase_unfold, Hkept. simpl map.
  rewrite !np_vstack_mean_single; cbn [bind].
  destruct (sweeps sweep_set) as [|s' r]; [discriminate|].
  inversion H0; subst s'. reflexivity.
Qed.

End AveragerInput.

(** ** The log levels of the aggregator *)

Section LogLevels.

Context {L : NumLib}.

(** The sweeps that [extract_chirp_features] logs at DEBUG level are the
    sweeps with a truncated stimulus epoch: [chirp_sweep_features] raises a
    [FeatureError] if and only if the last 10 voltage samples of the epoch
    are all equal to zero, the loop then logs the exception at DEBUG level
    and goes on; any other failure of a sweep is logged at WARNING level
    with the sweep number and the specimen. *)
Theorem sweep_loop_log_levels
    (specimen_id : Z) (method_params : MethodParams) (sweep : Sweep)
    (results : list Features) (lg : log) :
  let epoch := Sweep.select_epoch_stim sweep in
  let truncated :=
    forall k x, (length (Sweep.v epoch) - 10 <= k)%nat ->
                nth_error (Sweep.v epoch) k = Some x -> (x =? 0)%float = true in
  ((exists msg, chirp_sweep_features sweep method_params
                = Raise (FeatureError msg)) <-> truncated)
  /\ (truncated ->
      sweep_loop specimen_id method_params [sweep] results lg
      = (Ok results,
         lg ++ [(DEBUG,
                 SweepFeatureError (FeatureError "Chirp stim epoch truncated."))]))
  /\ (~ truncated ->
      forall exc, chirp_sweep_features sweep method_params = Raise exc ->
        sweep_loop specimen_id method_params [sweep] results lg
        = (Ok results,
           lg ++ [(WARNING,
                   SweepFailed (Sweep.sweep_number sweep) specimen_id exc)])).
Proof.
  intros epoch truncated.
  assert (Hcheck : np_all_zero (last_n 10 (Sweep.v epoch)) = true <-> truncated)
    by apply np_all_zero_last_n.
  assert (Hnum : np_all_zero (last_n 10 (Sweep.v epoch)) = false ->
            raises_only numeric_error (chirp_sweep_features sweep method_params)).
  { intros E. unfold chirp_sweep_features, chirp_sweep_amp_phase.
    apply raises_only_bind;
      [|intros [[amp phase] freq]; apply sweep_features_of_numeric].
    apply raises_only_bind.
    - unfold transform_sweep; fold epoch. rewrite E. apply transform_traces_numeric.
    - intros [[v i] freq].
      repeat (apply raises_only_bind;
              [first [apply np_broadcast_numeric | apply getitem_numeric
                     | apply py_int_numeric | apply savgol_filter_numeric]
              | intros]).
      apply raises_only_Ok. }
  assert (Htrunc : np_all_zero (last_n 10 (Sweep.v epoch)) = true ->
            chirp_sweep_features sweep method_params
            = Raise (FeatureError "Chirp stim epoch truncated.")).
  { intros E. unfold chirp_sweep_features, chirp_sweep_amp_phase, transform_sweep.
    fold epoch. rewrite E. reflexivity. }
  destruct (np_all_zero (last_n 10 (Sweep.v epoch))) eqn:E.
  - assert (Ht : truncated) by now apply Hcheck.
    split; [|split].
    + split; [intros _; exact Ht | intros _; rewrite Htrunc by reflexivity; eauto].
    + intros _. simpl. rewrite Htrunc by reflexivity. reflexivity.
    + intros Hn; contradiction.
  - assert (Hn : ~ truncated) by (intros H; apply Hcheck in H; discriminate).
    split; [|split].
    + split; [|intros H; contradiction].
      intros [msg H]. apply (Hnum eq_refl) in H. destruct H as [H _]; discriminate.
    + intros H; contradiction.
    + intros _ exc Hexc. simpl. rewrite Hexc.
      destruct (Hnum eq_refl exc Hexc) as [-> ->]. reflexivity.
Qed.

End LogLevels.

(** ** extract_chirp_feature_vector *)

Section FeatureVectorCalls.

Context {L : NumLib}.

(** [extract_chirp_feature_vector] never returns a value: an exception of
    [data_set.sweep_set] or of [chirp_amp_phase] leaves it, and when both
    return, its last line reads the name [features], which neither the
    function nor the module binds: a [NameError].  The mapping that it has
    built by then is lost. *)
Theorem extract_chirp_feature_vector_never_returns
    (sweep_set : list Z -> result SweepSet) (chirp_sweep_numbers : list Z) :
  (forall a, extract_chirp_feature_vector sweep_set chirp_sweep_numbers
             <> Returned a)
  /\ (forall e, sweep_set chirp_sweep_numbers = Raise e ->
        extract_chirp_feature_vector sweep_set chirp_sweep_numbers = Raised e)
  /\ (forall chirp_sweeps,
        sweep_set chirp_sweep_numbers = Ok chirp_sweeps ->
        match chirp_amp_phase chirp_sweeps
                0x1.3333333333333p-1 0x1.499999999999ap+4 2000
                0x1.999999999999ap-3 40 with
        | Raise e =>
            extract_chirp_feature_vector sweep_set chirp_sweep_numbers
            = Raised e
        | Ok _ =>
            extract_chirp_feature_vector sweep_set chirp_sweep_numbers
            = NameError "features"
        end).
Proof.
  split; [|split].
  - intros a. unfold extract_chirp_feature_vector.
    destruct (sweep_set chirp_sweep_numbers) as [chirp_sweeps|e]; [|discriminate].
    destruct (chirp_amp_phase _ _ _ _ _ _) as [[[amp phase] freq]|e];
      discriminate.
  - intros e Hs. unfold extract_chirp_feature_vector. now rewrite Hs.
  - intros chirp_sweeps Hs. unfold extract_chirp_feature_vector. rewrite Hs.
    destruct (chirp_amp_phase _ _ _ _ _ _) as [[[amp phase] freq]|e];
      reflexivity.
Qed.

End FeatureVectorCalls.

(** ** A band of fewer than two bins *)

Section NarrowBand.

Context {L : NumLib}.

Hypothesis fft_length : forall x, length (fft x) = length x.

(** When the band that [transform_sweep] returns has fewer than two
    frequency bins (the indices located for [min_freq] and [max_freq] are
    less than 2 apart), the smoothing stage reads [freq[1]] past the end:
    [chirp_sweep_amp_phase] and [chirp_sweep_features] raise an
    [IndexError]. *)
Theorem chirp_sweep_amp_phase_narrow_band
    (sweep : Sweep) (method_params : MethodParams)
    (v i : list complex) (freq : list float) :
  Sweep.wf sweep ->
  transform_sweep sweep (n_sample method_params) (min_freq method_params)
    (max_freq method_params) = Ok (v, i, freq) ->
  (length freq < 2)%nat ->
  chirp_sweep_amp_phase sweep method_params = Raise IndexError
  /\ chirp_sweep_features sweep method_params = Raise IndexError.
Proof.
  intros Hwf Ht Hlen.
  destruct (transform_sweep_aligned fft_length _ _ _ _ _ _ _ Hwf Ht) as [Hi Hfreq].
  assert (H : chirp_sweep_amp_phase sweep method_params = Raise IndexError).
  { unfold chirp_sweep_amp_phase. rewrite Ht; cbn [bind].
    unfold np_broadcast. rewrite <- Hi, Nat.eqb_refl; cbn [bind].
    unfold getitem at 1.
    destruct (nth_error freq 1) eqn:E; [|reflexivity].
    assert (Hs : nth_error freq 1 <> None) by congruence.
    apply nth_error_Some in Hs. lia. }
  split; [exact H|]. unfold chirp_sweep_features. now rewrite H.
Qed.

End NarrowBand.

(** ** The stimulus ontology with the chirp codes *)

Lemma py_in_In c tagset : py_in c tagset = true <-> In c tagset.
Proof.
  unfold py_in. rewrite existsb_exists. split.
  - intros (x & Hx & E). apply String.eqb_eq in E. now subst.
  - intros H. exists c. split; [exact H | apply String.eqb_refl].
Qed.

Lemma codes_loop_false tagset codes : codes_loop tagset codes false = false.
Proof.
  induction codes as [|c codes IH]; simpl; [reflexivity|].
  now destruct (py_in c tagset && py_in "code" tagset).
Qed.

Lemma codes_loop_true tagset codes :
  codes_loop tagset codes true = true
  <-> ~ (exists c, In c codes /\ In c tagset /\ In "code"%string tagset).
Proof.
  induction codes as [|c codes IH]; simpl.
  - split; [intros _ (c & [] & _) | reflexivity].
  - destruct (py_in c tagset && py_in "code" tagset) eqn:E.
    + apply andb_true_iff in E as [E1 E2]. apply py_in_In in E1, E2.
      split; [discriminate|]. intros H; exfalso; apply H; eauto.
    + rewrite IH. apply andb_false_iff in E.
      split; intros H (c' & Hc' & H1 & H2); apply H.
      * destruct Hc' as [<-|Hc']; [|eauto].
        destruct E as [E|E]; apply not_true_iff_false in E;
          exfalso; apply E, py_in_In; assumption.
      * eauto.
Qed.

Lemma tagsets_loop_false od codes : tagsets_loop od codes false = false.
Proof.
  induction od as [|tagset od IH]; simpl; [reflexivity|].
  now rewrite codes_loop_false.
Qed.

(** The flag of an entry: once [False] it stays so, and it ends [True] when
    no tag set of the entry holds "code" and one of the codes. *)
Lemma tagsets_loop_true od codes :
  tagsets_loop od codes true = true <-> ~ tags_code_of codes od.
Proof.
  unfold tags_code_of. induction od as [|tagset od IH]; simpl.
  - split; [intros _ (t & c & [] & _) | reflexivity].
  - destruct (codes_loop tagset codes true) eqn:E.
    + rewrite IH. apply codes_loop_true in E.
      split; intros H (t & c & Ht & Hc); apply H.
      * destruct Ht as [<-|Ht]; [exfalso; apply E; eauto | eauto].
      * eauto.
    + rewrite tagsets_loop_false. split; [discriminate|].
      intros H; exfalso.
      apply not_true_iff_false in E. apply E, codes_loop_true.
      intros (c & Hc); apply H; eauto.
Qed.

Lemma mask_loop_map data codes mask :
  mask_loop data codes mask
  = mask ++ map (fun od => tagsets_loop od codes true) data.
Proof.
  revert mask; induction data as [|od data IH]; intros mask; simpl.
  - now rewrite app_nil_r.
  - now rewrite IH, <- app_assoc.
Qed.

Lemma filter_combine_map {A} (f : A -> bool) (l : list A) :
  map fst (filter (fun p => snd p) (combine l (map f l))) = filter f l.
Proof.
  induction l as [|x l IH]; simpl; [reflexivity|].
  destruct (f x); simpl; now rewrite IH.
Qed.

Lemma ontology_with_chirps_filter codes data :
  ontology_with_chirps codes data
  = filter (fun od => tagsets_loop od codes true) data ++ [chirp_stimulus codes].
Proof.
  unfold ontology_with_chirps.
  rewrite (mask_loop_map data codes []). cbn [app].
  now rewrite (filter_combine_map (fun od => tagsets_loop od codes true)).
Qed.

Lemma chirp_stimulus_tags codes :
  codes <> [] -> tags_code_of codes (chirp_stimulus codes).
Proof.
  destruct codes as [|c codes]; [congruence|]. intros _.
  exists ("code"%string :: c :: codes), c. simpl. auto 6.
Qed.

Lemma filter_filter_same {A} (f : A -> bool) (l : list A) :
  filter f (filter f l) = filter f l.
Proof.
  induction l as [|x l IH]; simpl; [reflexivity|].
  destruct (f x) eqn:E; simpl; [rewrite E|]; now rewrite IH.
Qed.

(** The entries that [ontology_with_chirps] hands to the ontology are, in
    the order of the file and as they are, the entries none of whose tag
    sets holds "code" together with one of the chirp codes, and then the
    chirp entry: code tag set, name "Chirp", core "Core 2". *)
Theorem ontology_with_chirps_entries
    (chirp_stimulus_codes : list string) (ontology_data : list stimulus) :
  exists keep : stimulus -> bool,
    (forall od, keep od = true <-> ~ tags_code_of chirp_stimulus_codes od)
    /\ ontology_with_chirps chirp_stimulus_codes ontology_data
       = filter keep ontology_data ++ [chirp_stimulus chirp_stimulus_codes]
    /\ (forall od, In od (ontology_with_chirps chirp_stimulus_codes ontology_data)
         <-> (In od ontology_data /\ ~ tags_code_of chirp_stimulus_codes od)
             \/ od = chirp_stimulus chirp_stimulus_codes).
Proof.
  exists (fun od => tagsets_loop od chirp_stimulus_codes true).
  split; [intros od; apply tagsets_loop_true|].
  split; [apply ontology_with_chirps_filter|].
  intros od. rewrite ontology_with_chirps_filter, in_app_iff, filter_In.
  rewrite tagsets_loop_true. simpl. intuition congruence.
Qed.

(** With one chirp code at least, the chirp entry is the only entry of the
    result that tags one of the codes and it is the last one, so that
    editing the result again gives the result back; with no code at all
    nothing is removed and every edit appends one more entry. *)
Theorem ontology_with_chirps_idempotent
    (chirp_stimulus_codes : list string) (ontology_data : list stimulus) :
  let result := ontology_with_chirps chirp_stimulus_codes ontology_data in
  (chirp_stimulus_codes <> [] ->
     (forall k od, nth_error result k = Some od ->
        (tags_code_of chirp_stimulus_codes od <-> k = (length result - 1)%nat))
     /\ nth_error result (length result - 1)
        = Some (chirp_stimulus chirp_stimulus_codes)
     /\ ontology_with_chirps chirp_stimulus_codes result = result)
  /\ (chirp_stimulus_codes = [] ->
      result = ontology_data ++ [chirp_stimulus []]
      /\ ontology_with_chirps [] result
         = ontology_data ++ [chirp_stimulus []; chirp_stimulus []]).
Proof.
  intros result. subst result. rewrite ontology_with_chirps_filter.
  set (keep := fun od => tagsets_loop od chirp_stimulus_codes true).
  set (kept := filter keep ontology_data).
  assert (Hlen : (length (kept ++ [chirp_stimulus chirp_stimulus_codes]) - 1
                  = length kept)%nat)
    by (rewrite length_app; simpl; lia).
  split.
  - intros Hcodes. rewrite Hlen. split; [|split].
    + intros k od Hk.
      destruct (Nat.lt_ge_cases k (length kept)) as [H|H].
      * rewrite nth_error_app1 in Hk by exact H.
        apply nth_error_In, filter_In in Hk as [_ Hk].
        apply tagsets_loop_true in Hk. split; [contradiction | lia].
      * rewrite nth_error_app2 in Hk by exact H.
        destruct (k - length kept)%nat as [|j] eqn:E; simpl in Hk;
          [|destruct j; discriminate].
        inversion Hk; subst od.
        split; [lia | intros _; now apply chirp_stimulus_tags].
    + rewrite nth_error_app2, Nat.sub_diag by lia. reflexivity.
    + rewrite ontology_with_chirps_filter, filter_app. fold keep. unfold kept.
      rewrite filter_filter_same. simpl.
      destruct (keep (chirp_stimulus chirp_stimulus_codes)) eqn:E;
        [|now rewrite app_nil_r].
      apply tagsets_loop_true in E. exfalso. now apply E, chirp_stimulus_tags.
  - intros ->.
    assert (Hall : forall l : list stimulus,
              filter (fun od => tagsets_loop od [] true) l = l).
    { induction l as [|od l IH]; simpl; [reflexivity|].
      replace (tagsets_loop od [] true) with true; [now rewrite IH|].
      symmetry. apply tagsets_loop_true. intros (t & c & _ & [] & _). }
    unfold kept, keep. rewrite Hall. split; [reflexivity|].
    rewrite ontology_with_chirps_filter, Hall, <- app_assoc. reflexivity.
Qed.

(** * Examples and counterexamples *)

(** ** The helpers on small inputs *)

Example rint_halves_to_even :
  map F64.rint [0.5; 1.5; 2.5; 3.5; -0.5; -1.5; 1.25; 1.75; 4096; 1e22]%float
  = [0; 2; 2; 4; -0; -2; 1; 2; 4096; 1e22]%float.
Proof. vm_compute. reflexivity. Qed.

Example py_int_truncates :
  map F64.py_int [2.75; -2.75; 0.5; -0; nan; infinity]%float
  = [Ok 2%Z; Ok (-2)%Z; Ok 0%Z; Ok 0%Z; Raise ValueError; Raise OverflowError].
Proof. vm_compute. reflexivity. Qed.

Example np_linspace_five : np_linspace 0 2 5 = [0; 0.5; 1; 1.5; 2]%float.
Proof. vm_compute. reflexivity. Qed.

Example np_linspace_one : np_linspace 0 2 1 = [0]%float.
Proof. vm_compute. reflexivity. Qed.

Example np_argmax_first_maximum : np_argmax [1; 3; 2; 3]%float = Ok 1%nat.
Proof. vm_compute. reflexivity. Qed.

Example np_argmax_first_nan : np_argmax [1; nan; 5; nan]%float = Ok 1%nat.
Proof. vm_compute. reflexivity. Qed.

Example np_argmin_first_minimum : np_argmin [2; 1; 1; -0; 0]%float = Ok 3%nat.
Proof. vm_compute. reflexivity. Qed.

Example find_time_index_nearest :
  map (find_time_index [0; 1; 2; 3]%float) [1.25; 1.5; -7; 10]%float
  = [Ok 1%nat; Ok 1%nat; Ok 0%nat; Ok 3%nat].
Proof. vm_compute. reflexivity. Qed.

Example _subsample_average_blocks :
  _subsample_average [nan; nan; 3; 4; 5; 6; 7]%float 3 = Ok [3; 5]%float.
Proof. vm_compute. reflexivity. Qed.

Example stride_three : stride 3 [0; 1; 2; 3; 4; 5; 6]%nat = [0; 3; 6]%nat.
Proof. reflexivity. Qed.

Example last_n_short : last_n 10 [1; 2; 3]%nat = [1; 2; 3]%nat.
Proof. reflexivity. Qed.

(** The phase of the smoothing stage against the reactance of the averager,
    with the textbook kernels: on [Z = -1] the angle is pi and the arctangent
    of [imag / real] is zero. *)
Example angle_is_not_arctan_of_ratio :
  Demo.angle (Cx (-1) 0) = Demo.pi
  /\ (Demo.arctan (0 / -1) =? 0)%float = true.
Proof. split; vm_compute; reflexivity. Qed.

(** ** The band restriction leaves out the sample located for [max_freq] *)

(** C6, as stated, fails.  On a sweep of 34 samples at 8 Hz the frequency
    axis of [transform_sweep] is 0, 0.25, ..., 4 Hz; the band 0.5 Hz to
    3.5 Hz is asked for; the Locator gives the index 14 for 3.5 Hz, where the
    axis holds 3.5 Hz exactly; the returned frequencies stop at 3.25 Hz,
    whatever the numeric kernels are.  The averager does the same on a sweep
    of 19 samples: its axis is 0, 0.5, ..., 4 Hz and the returned frequencies
    stop at 3 Hz.  On that axis the band restriction returns the bins 1 to 6,
    where the inclusive reading of the spec would return the bins 1 to 7. *)
Lemma band_excludes_located_max_freq :
  find_time_index (np_linspace 0 4 17) 3.5 = Ok 14%nat
  /\ nth_error (np_linspace 0 4 17) 14 = Some 3.5%float
  /\ (forall L : NumLib,
        @transform_sweep L Demo.sweep_34 20 0.5 3.5
        = Ok (slice 2 14 (fft (Sweep.v Demo.sweep_34)),
              slice 2 14 (fft (Sweep.i Demo.sweep_34)),
              [0.5; 0.75; 1; 1.25; 1.5; 1.75; 2; 2.25; 2.5; 2.75; 3; 3.25]%float))
  /\ existsb (fun f => (f =? 3.5)%float)
       [0.5; 0.75; 1; 1.25; 1.5; 1.75; 2; 2.25; 2.5; 2.75; 3; 3.25]%float
     = false
  /\ find_time_index (np_linspace 0 4 9) 3.5 = Ok 7%nat
  /\ nth_error (np_linspace 0 4 9) 7 = Some 3.5%float
  /\ (forall (L : NumLib) out,
        @chirp_amp_phase L {| sweeps := [Demo.sweep_19] |} 0 2.25 2000 0.5 3.5
        = Ok out ->
        snd out = [0.5; 1; 1.5; 2; 2.5; 3]%float)
  /\ (exists resistance reactance,
        @chirp_amp_phase Demo.lib {| sweeps := [Demo.sweep_19] |} 0 2.25 2000 0.5 3.5
        = Ok (resistance, reactance, [0.5; 1; 1.5; 2; 2.5; 3]%float))
  /\ existsb (fun f => (f =? 3.5)%float) [0.5; 1; 1.5; 2; 2.5; 3]%float = false
  /\ band_slice (seq 0 9) (seq 0 9) (np_linspace 0 4 9) 0.5 3.5
     = Ok ([1; 2; 3; 4; 5; 6]%nat, [1; 2; 3; 4; 5; 6]%nat,
           [0.5; 1; 1.5; 2; 2.5; 3]%float)
  /\ band_slice_as_specified (seq 0 9) (seq 0 9) (np_linspace 0 4 9) 0.5 3.5
     = Ok ([1; 2; 3; 4; 5; 6; 7]%nat, [1; 2; 3; 4; 5; 6; 7]%nat,
           [0.5; 1; 1.5; 2; 2.5; 3; 3.5]%float).
Proof.
  split; [vm_compute; reflexivity|].
  split; [vm_compute; reflexivity|].
  split; [intros L; vm_compute; reflexivity|].
  split; [vm_compute; reflexivity|].
  split; [vm_compute; reflexivity|].
  split; [vm_compute; reflexivity|].
  split; [|split; [|repeat split; vm_compute; reflexivity]].
  - intros L out H. unfold chirp_amp_phase in H.
    rewrite (stack_sweeps_filter (sweeps {| sweeps := [Demo.sweep_19] |}) [] []) in H.
    apply bind_Ok_inv in H as (avg_v & Hav & H).
    apply bind_Ok_inv in H as (avg_i & Hai & H).
    apply bind_Ok_inv in H as (swp0 & Hs0 & H).
    apply bind_Ok_inv in H as ([[ds_v ds_i] ds_t] & Hds & H).
    vm_compute in Hav; inversion Hav; subst avg_v; clear Hav.
    vm_compute in Hai; inversion Hai; subst avg_i; clear Hai.
    vm_compute in Hs0; inversion Hs0; subst swp0; clear Hs0.
    vm_compute in Hds; inversion Hds; subst ds_v ds_i ds_t; clear Hds.
    apply bind_Ok_inv in H as (start_index & Hsi & H).
    apply bind_Ok_inv in H as (end_index & Hei & H).
    vm_compute in Hsi; inversion Hsi; subst start_index; clear Hsi.
    vm_compute in Hei; inversion Hei; subst end_index; clear Hei.
    apply bind_Ok_inv in H as (t1 & Ht1 & H).
    apply bind_Ok_inv in H as (t0 & Ht0 & H).
    vm_compute in Ht1; inversion Ht1; subst t1; clear Ht1.
    vm_compute in Ht0; inversion Ht0; subst t0; clear Ht0.
    apply bind_Ok_inv in H as (v_fft & _ & H).
    apply bind_Ok_inv in H as (i_fft & _ & H).
    apply bind_Ok_inv in H as (Z & _ & H).
    apply bind_Ok_inv in H as (q & _ & H).
    unfold band_slice in H.
    apply bind_Ok_inv in H as (low & Hlow & H).
    apply bind_Ok_inv in H as (high & Hhigh & H).
    vm_compute in Hlow; inversion Hlow; subst low; clear Hlow.
    vm_compute in Hhigh; inversion Hhigh; subst high; clear Hhigh.
    inversion H; subst out; clear H. vm_compute. reflexivity.
  - eexists; eexists. vm_compute. reflexivity.
Qed.

(** ** The decimation width is truncated, not rounded *)

(** C7, as stated, fails.  A time base at 16384 Hz and a target rate of
    10000 Hz: the quotient of the rates is 1.6384, [int] makes it 1 and the
    averager returns the traces and the time base as they are (blocks of one
    sample); rounded, as the spec has it, the width would be 2 and two
    samples of four would be left. *)
Lemma downsample_width_not_rounded :
  F64.rint (1 / (0x1p-14 - 0))%float = 16384%float
  /\ F64.py_int (16384 / 10000)%float = Ok 1%Z
  /\ F64.py_int (F64.rint (16384 / 10000)%float) = Ok 2%Z
  /\ downsample [1; 2; 3; 4]%float [5; 6; 7; 8]%float Demo.times_16k 10000
     = Ok ([1; 2; 3; 4]%float, [5; 6; 7; 8]%float, Demo.times_16k)
  /\ downsample_as_specified [1; 2; 3; 4]%float [5; 6; 7; 8]%float
       Demo.times_16k 10000
     = Ok ([1.5; 3.5]%float, [5.5; 7.5]%float, [0; 0x1p-13]%float).
Proof. repeat split; vm_compute; reflexivity. Qed.

(** ** The theorems at concrete inputs *)

(** The mean of one value is that value. *)
Lemma Demo_mean_singleton (x : float) : feq (Demo.mean [x]) x.
Proof.
  unfold Demo.mean. simpl.
  change (F64.of_nat 1) with 1%float. rewrite div_1_r. apply add_0_l.
Qed.

Lemma Demo_dft_length (x : list float) : length (Demo.dft x) = length x.
Proof. unfold Demo.dft. now rewrite length_map, length_seq. Qed.


Lemma Demo_sweep_34_wf : Sweep.wf Demo.sweep_34.
Proof. split; vm_compute; reflexivity. Qed.


(** The end-to-end case of the spec: of the two sweeps of specimen 7 the
    first yields features and the second raises the [FeatureError] of a
    truncated stimulus; the aggregator returns the features of the first. *)
Lemma extract_chirp_features_mean_witness :
  exists d lg r34,
    @chirp_sweep_features Demo.lib Demo.sweep_34 Demo.params = Ok r34
    /\ (exists msg, @chirp_sweep_features Demo.lib Demo.sweep_cut Demo.params
                    = Raise (FeatureError msg))
    /\ @extract_chirp_features Demo.lib 7 Demo.data_source Demo.params = (Ok d, lg)
    /\ map fst d = feature_names
    /\ features_eq d r34.
Proof.
  destruct (@extract_chirp_features_mean Demo.lib 7 Demo.data_source Demo.params
              {| sweeps := [Demo.sweep_34; Demo.sweep_cut] |} eq_refl)
    as (d & lg & Hd & Hnames & _ & Hone).
  - vm_compute. discriminate.
  - exists d, lg.
    exists (match @chirp_sweep_features Demo.lib Demo.sweep_34 Demo.params with
            | Ok r => r
            | Raise _ => []
            end).
    split; [vm_compute; reflexivity|].
    split; [eexists; vm_compute; reflexivity|].
    split; [exact Hd|]. split; [exact Hnames|].
    apply Hone; [exact Demo_mean_singleton | vm_compute; reflexivity].
Defined.

Lemma sweep_features_of_spec_witness :
  exists d,
    sweep_features_of [1; 4; 2; 4]%float [0; 0.5; 0.25; 1]%float
      [1; 2; 3; 4]%float = Ok d
    /\ map fst d = feature_names
    /\ lookup "peak_freq" d = Ok 2%float
    /\ lookup "3db_freq" d = Ok 3%float.
Proof.
  destruct (sweep_features_of_spec [1; 4; 2; 4]%float [0; 0.5; 0.25; 1]%float
              [1; 2; 3; 4]%float eq_refl eq_refl)
    as (i_max & i_cutoff & z_max & a_0 & a_last & f_max & f_cutoff & p_max
        & p_0 & p_last & H).
  - discriminate.
  - cbv zeta in H.
    destruct H as (_ & _ & _ & _ & _ & _ & _ & _ & _ & _ & _ & _ & H).
    eexists. split; [exact H|]. split; [reflexivity|].
    assert (E := H). vm_compute in E. inversion E; subst.
    split; reflexivity.
Defined.

Lemma band_is_half_open_witness :
  exists out v' i' f_nyq,
    @transform_sweep Demo.lib Demo.sweep_34 20 0.5 3.5 = Ok out
    /\ length i' = length v'
    /\ half_open_band (Demo.dft v') (Demo.dft i')
         (np_linspace 0 f_nyq (length v' / 2)) 0.5 3.5 out.
Proof.
  set (out := match @transform_sweep Demo.lib Demo.sweep_34 20 0.5 3.5 with
              | Ok o => o
              | Raise _ => ([], [], [])
              end).
  assert (Hout : @transform_sweep Demo.lib Demo.sweep_34 20 0.5 3.5 = Ok out)
    by (vm_compute; reflexivity).
  destruct (proj1 (@band_is_half_open Demo.lib Demo_dft_length)
              Demo.sweep_34 20%Z 0.5%float 3.5%float out Demo_sweep_34_wf Hout)
    as (width & pad & v' & i' & f_nyq & _ & _ & Hlen & Hband).
  exists out, v', i', f_nyq. auto.
Defined.

Lemma downsample_width_truncated_witness :
  is_truncation (Prim2SF (16384 / 10000)%float) 1
  /\ exists ds_v ds_i,
       downsample [1; 2; 3; 4]%float [5; 6; 7; 8]%float Demo.times_16k 10000
       = Ok (ds_v, ds_i, stride 1 Demo.times_16k)
       /\ length ds_v = 4%nat.
Proof.
  destruct (proj2 (downsample_width_truncated [1; 2; 3; 4]%float
                     [5; 6; 7; 8]%float Demo.times_16k 0%float 0x1p-14%float
                     10000%float eq_refl eq_refl) eq_refl 1%Z eq_refl)
    as [Htrunc Hds].
  split; [exact Htrunc|].
  destruct (Hds ltac:(lia)) as (ds_v & ds_i & Hd & _ & _ & Hlen & _).
  exists ds_v, ds_i. split; [exact Hd | exact Hlen].
Defined.

Lemma chirp_sweep_amp_phase_spec_witness :
  exists amp phase freq,
    @chirp_sweep_amp_phase Demo.lib Demo.sweep_34 Demo.params
    = Ok (amp, phase, freq)
    /\ length amp = 12%nat /\ length phase = 12%nat /\ length freq = 12%nat.
Proof.
  set (out := match @transform_sweep Demo.lib Demo.sweep_34 20 0.5 3.5 with
              | Ok o => o
              | Raise _ => ([], [], [])
              end).
  assert (Hout : @transform_sweep Demo.lib Demo.sweep_34 20 0.5 3.5
                 = Ok (fst (fst out), snd (fst out), snd out))
    by (vm_compute; reflexivity).
  destruct (@chirp_sweep_amp_phase_spec Demo.lib Demo_dft_length Demo.sweep_34
              Demo.params (fst (fst out)) (snd (fst out)) (snd out)
              0.5%float 0.75%float 4%Z Demo_sweep_34_wf Hout eq_refl eq_refl
              eq_refl)
    as (_ & _ & _ & _ & Hret).
  eexists; eexists; eexists. split.
  - apply Hret; vm_compute; reflexivity.
  - repeat split; vm_compute; reflexivity.
Defined.

Lemma transform_sweep_short_epoch_raises_witness :
  int_truediv 34 10000 = Ok 0%Z
  /\ @transform_sweep Demo.lib Demo.sweep_34 10000 1 35 = Raise ZeroDivisionError.
Proof.
  destruct (proj1 (@transform_sweep_short_epoch_raises Demo.lib Demo.sweep_34
                     10000%Z 1%float 35%float))
    as (Hw & _ & Hr & _).
  - vm_compute. reflexivity.
  - split; [exact Hw|].
    destruct Hr as [[msg Hr]|Hr]; [|exact Hr].
    vm_compute in Hr. discriminate.
Defined.


(** ** The further properties at concrete inputs *)

Lemma Demo_smooth_length x w p y :
  Demo.smooth x w p = Some y -> length y = length x.
Proof.
  unfold Demo.smooth. destruct (_ || _); [discriminate|].
  intros H; inversion H. now rewrite length_map, length_seq.
Qed.

(** The older chirp entry of the file is replaced by the new one. *)
Example ontology_with_chirps_demo :
  ontology_with_chirps CHIRP_CODES Demo.ontology_data
  = [ [["code"; "C1LSFINEST"]; ["name"; "Long Square"]; ["core"; "Core 1"]];
      [["code"; "C1RP25PR1S"]; ["name"; "Ramp"]; ["core"; "Core 1"]];
      [["code"; "C2CHIRP180503"; "C2CHIRP171129"; "C2CHIRP171103"];
       ["name"; "Chirp"]; ["core"; "Core 2"]] ]%string.
Proof. reflexivity. Qed.

Lemma ontology_with_chirps_idempotent_witness :
  ontology_with_chirps CHIRP_CODES
    (ontology_with_chirps CHIRP_CODES Demo.ontology_data)
  = ontology_with_chirps CHIRP_CODES Demo.ontology_data
  /\ length (ontology_with_chirps CHIRP_CODES Demo.ontology_data) = 3%nat.
Proof.
  split; [|reflexivity].
  apply (proj1 (ontology_with_chirps_idempotent CHIRP_CODES Demo.ontology_data)).
  discriminate.
Defined.

Lemma extract_chirp_feature_vector_never_returns_witness :
  returns (@chirp_amp_phase Demo.lib {| sweeps := [Demo.sweep_19] |}
             0x1.3333333333333p-1 0x1.499999999999ap+4 2000
             0x1.999999999999ap-3 40)
  /\ @extract_chirp_feature_vector Demo.lib
       (fun _ => Ok {| sweeps := [Demo.sweep_19] |}) [3%Z]
     = NameError "features".
Proof.
  pose proof (proj2 (proj2 (@extract_chirp_feature_vector_never_returns Demo.lib
                              (fun _ => Ok {| sweeps := [Demo.sweep_19] |})
                              [3%Z]))
                {| sweeps := [Demo.sweep_19] |} eq_refl) as H.
  destruct (@chirp_amp_phase Demo.lib {| sweeps := [Demo.sweep_19] |}
              0x1.3333333333333p-1 0x1.499999999999ap+4 2000
              0x1.999999999999ap-3 40) as [out|e] eqn:E.
  - split; [eexists; reflexivity | exact H].
  - vm_compute in E. discriminate.
Defined.

Lemma sweep_features_of_nan_witness :
  exists d,
    sweep_features_of [1; nan; 3; nan]%float [0; 0.5; 0.25; 1]%float
      [1; 2; 3; 4]%float = Ok d
    /\ lookup "peak_freq" d = Ok 2%float
    /\ lookup "3db_freq" d = Ok 1%float.
Proof.
  destruct (sweep_features_of_nan [1; nan; 3; nan]%float [0; 0.5; 0.25; 1]%float
              [1; 2; 3; 4]%float 1 nan eq_refl eq_refl eq_refl eq_refl)
    as (d & z & r & Hd & _ & _ & _ & _ & Hpf & _ & Hcf).
  - intros [|j] y Hj Hy; [|lia]. inversion Hy. reflexivity.
  - exists d. split; [exact Hd|]. split; [exact Hpf | exact Hcf].
Defined.

Lemma transform_traces_blocks_witness :
  exists width c pad,
    int_truediv 34 10 = Ok width /\ ceil_truediv 34 width = Ok c
    /\ width = 3%Z /\ c = 12%Z /\ pad = 2%Z
    /\ Z.of_nat (length (np_pad_left_nan (Z.to_nat pad) (Sweep.v Demo.sweep_34)))
       = 36%Z.
Proof.
  destruct (@transform_traces_blocks Demo.lib (Sweep.v Demo.sweep_34)
              (Sweep.i Demo.sweep_34) (Sweep.t Demo.sweep_34) 10 0.5 3.5)
    as (width & c & pad & Hw & Hc & Hp & _ & _ & _ & _ & Hlen & _).
  - vm_compute. split; discriminate.
  - exists width, c, pad.
    assert (Ew : width = 3%Z) by (vm_compute in Hw; congruence).
    subst width.
    assert (Ec : c = 12%Z) by (vm_compute in Hc; congruence).
    subst c. subst pad.
    repeat split; try assumption; try reflexivity.
Defined.

Lemma transform_sweep_n_sample_below_2_witness :
  @transform_sweep Demo.lib Demo.sweep_34 1 0.5 3.5 = Raise IndexError.
Proof.
  apply (proj2 (@transform_sweep_n_sample_below_2 Demo.lib Demo.sweep_34 1
                  0.5%float 3.5%float Demo_sweep_34_wf ltac:(lia))).
  vm_compute. reflexivity.
Defined.

Lemma chirp_amp_phase_kept_sweeps_witness :
  @chirp_amp_phase Demo.lib {| sweeps := [Demo.sweep_19; Demo.sweep_tail] |}
    0 2.25 2000 0.5 3.5
  = @chirp_amp_phase Demo.lib {| sweeps := [Demo.sweep_19] |} 0 2.25 2000 0.5 3.5.
Proof.
  apply (@chirp_amp_phase_kept_sweeps Demo.lib); vm_compute; reflexivity.
Defined.

Lemma chirp_amp_phase_ragged_witness :
  @chirp_amp_phase Demo.lib {| sweeps := [Demo.sweep_19; Demo.sweep_34] |}
    0 2.25 2000 0.5 3.5
  = Raise ValueError.
Proof.
  apply (@chirp_amp_phase_ragged Demo.lib
           {| sweeps := [Demo.sweep_19; Demo.sweep_34] |}
           Demo.sweep_19 Demo.sweep_34 [Demo.sweep_34]).
  - vm_compute. reflexivity.
  - left. reflexivity.
  - left. vm_compute. discriminate.
Defined.

Lemma chirp_amp_phase_single_sweep_witness :
  @chirp_amp_phase Demo.lib {| sweeps := [Demo.sweep_19; Demo.sweep_tail] |}
    0 2.25 2000 0.5 3.5
  = @amp_phase_of_average Demo.lib (Sweep.v Demo.sweep_19) (Sweep.i Demo.sweep_19)
      (Sweep.t Demo.sweep_19) 0 2.25 2000 0.5 3.5.
Proof.
  apply (@chirp_amp_phase_single_sweep Demo.lib
           {| sweeps := [Demo.sweep_19; Demo.sweep_tail] |}
           Demo.sweep_19 Demo.sweep_19).
  - vm_compute. reflexivity.
  - reflexivity.
Defined.

Lemma chirp_sweep_amp_phase_narrow_band_witness :
  @chirp_sweep_features Demo.lib Demo.sweep_34 Demo.params_narrow
  = Raise IndexError.
Proof.
  set (out := match @transform_sweep Demo.lib Demo.sweep_34 20 0.5 0.75 with
              | Ok o => o
              | Raise _ => ([], [], [])
              end).
  assert (Hout : @transform_sweep Demo.lib Demo.sweep_34 20 0.5 0.75
                 = Ok (fst (fst out), snd (fst out), snd out))
    by (vm_compute; reflexivity).
  apply (proj2 (@chirp_sweep_amp_phase_narrow_band Demo.lib Demo_dft_length
                  Demo.sweep_34 Demo.params_narrow _ _ _ Demo_sweep_34_wf Hout
                  ltac:(vm_compute; lia))).
Defined.

Lemma chirp_sweep_features_returns_witness :
  exists d, @chirp_sweep_features Demo.lib Demo.sweep_34 Demo.params = Ok d
            /\ map fst d = feature_names.
Proof.
  set (out := match @chirp_sweep_amp_phase Demo.lib Demo.sweep_34 Demo.params with
              | Ok o => o
              | Raise _ => ([], [], [])
              end).
  assert (Hout : @chirp_sweep_amp_phase Demo.lib Demo.sweep_34 Demo.params
                 = Ok (fst (fst out), snd (fst out), snd out))
    by (vm_compute; reflexivity).
  destruct (@chirp_sweep_features_returns Demo.lib Demo_dft_length
              Demo_smooth_length Demo.sweep_34 Demo.params _ _ _
              Demo_sweep_34_wf Hout) as (d & Hd & _ & Hn).
  exists d. split; assumption.
Defined.
